(** * Pilot route compiler and ADS request handling: a shallow embedding

    The development follows three source files of the repository:

    - [pilot/pkg/model/config.go]: the typed configuration store view
      ([MostSpecificHostMatch], [ResolveHostname], [ResolveShortnameToFQDN],
      [VirtualServices], [AuthenticationPolicyByDestination]);
    - [pilot/pkg/networking/core/v1alpha3/route/route.go]: the route compiler
      ([TranslateVirtualHosts], [translateVirtualHost], [TranslateRoutes],
      [translateRoute], [sourceMatchHTTP], [ConvertDestinationToCluster]);
    - [pilot/pkg/proxy/envoy/v1/policy.go]: the ADS stream handler
      ([StreamAggregatedResources], [pushRoute], [routeDiscoveryResponse]).

    Go strings are modelled as [string] (byte strings, compared bytewise), Go
    [int]/[int32]/[uint32] as [Z] with conversions written out, slices as
    lists, Go maps keyed by strings as [gmap string _]. *)

From Stdlib Require Import ZArith Ascii.
From stdpp Require Import gmap strings list sorting.

Open Scope Z_scope.

(** * Part I: the embedding *)

(** ** Go library functions used by the sources *)

Module GoStrings.

(** [strings.HasSuffix]. *)
Definition HasSuffix (s suffix : string) : bool :=
  let n := String.length s in
  let k := String.length suffix in
  (k <=? n)%nat && String.eqb (String.substring (n - k) k s) suffix.

(** One step of [strings.Contains(s, ".")]: is the byte [c] in [s]? *)
Fixpoint ContainsByte (c : Ascii.ascii) (s : string) : bool :=
  match s with
  | EmptyString => false
  | String a rest => Ascii.eqb a c || ContainsByte c rest
  end.

(** [strings.Split(s, sep)] for a one-byte separator: the pieces of [s]
    between occurrences of [c]; never empty. *)
Fixpoint SplitByte (c : Ascii.ascii) (s : string) : list string :=
  match s with
  | EmptyString => [EmptyString]
  | String a rest =>
      if Ascii.eqb a c then EmptyString :: SplitByte c rest
      else match SplitByte c rest with
           | [] => [String a EmptyString]
           | p :: ps => String a p :: ps
           end
  end.

(** [strings.Join]. *)
Fixpoint Join (l : list string) (sep : string) : string :=
  match l with
  | [] => ""
  | [x] => x
  | x :: rest => x +:+ sep +:+ Join rest sep
  end.

End GoStrings.

(** ** [sort.Sort] and the first-match loop

    [sort.Sort] reorders its argument in place and is not stable.  For a
    comparison [less] that is a strict total order the sorted arrangement of
    a slice is unique, so every correct sorting algorithm yields the same
    slice ([sort_unique], in the second part, proves that); this is what
    justifies computing the result with a merge sort. *)

Section SortDefs.
Context {A : Type} (less : A → A → bool).

(** [a] may stand before [b] in sorted order: [b] is not less than [a]. *)
Definition notAfter (a b : A) : Prop := less b a = false.

#[global] Instance notAfter_dec a b : Decision (notAfter a b).
Proof. unfold notAfter. apply _. Defined.

Definition sort_Sort (l : list A) : list A := merge_sort notAfter l.

(** The loop [for _, h := range l { if p(h) { return h, true } }]. *)
Fixpoint firstThat (p : A → bool) (l : list A) : option A :=
  match l with
  | [] => None
  | h :: rest => if p h then Some h else firstThat p rest
  end.
End SortDefs.

(** ** Outcomes of Go code that can panic

    An unchecked type assertion on an interface value panics when the value
    holds another type. *)

Inductive outcome (A : Type) : Type :=
  | Returns (a : A)
  | Panics.
Arguments Returns {A} a.
Arguments Panics {A}.

#[global] Instance outcome_bind : MBind outcome := λ A B f m,
  match m with
  | Returns a => f a
  | Panics => Panics
  end.

(** [for _, x := range l { body }] where the body may panic. *)
Fixpoint forEach {A S} (body : S → A → outcome S) (l : list A) (s : S) : outcome S :=
  match l with
  | [] => Returns s
  | x :: rest => s' ← body s x; forEach body rest s'
  end.

(** ** Data model of package [model] *)

(** [Hostname] is a string type in the source. *)
Definition Hostname : Type := string.

(** [Labels] is [map[string]string], here [gmap string string];
    [LabelsCollection] is a slice of them, here a list. *)

(** [m[k]] on a [map[string]bool]: [false] when the key is missing. *)
Definition lookupB (m : gmap string bool) (k : string) : bool :=
  default false (m !! k).

(** [ConfigMeta], field by field. *)
Record ConfigMeta : Type := mkConfigMeta {
  Type_ : string;
  Group : string;
  Version : string;
  Name : string;
  Namespace : string;
  Domain : string;
  MetaLabels : gmap string string;
  Annotations : gmap string string;
  ResourceVersion : string;
}.

(** [Config]: the metadata and the [Spec].  [Spec] is an interface value in
    the source; [S] is what it holds: a message by value ([proto_Message]
    below) where only its content matters, a reference into a store of
    messages ([ref]) where sharing matters. *)
Record Config (S : Type) : Type := mkConfig {
  Meta : ConfigMeta;
  Spec : S;
}.
Arguments mkConfig {S} _ _.
Arguments Meta {S} _.
Arguments Spec {S} _.

(** [Key(typ, name, namespace)] is [fmt.Sprintf("%s/%s/%s", typ, namespace, name)]. *)
Definition Key (typ name namespace : string) : string :=
  typ +:+ "/" +:+ namespace +:+ "/" +:+ name.

Definition ConfigMeta_Key (meta : ConfigMeta) : string :=
  Key (Type_ meta) (Name meta) (Namespace meta).

(** Constants of config.go. *)
Definition NamespaceAll : string := "".
Definition IstioMeshGateway : string := "mesh".
Definition VirtualService_Type : string := "virtual-service".
Definition AuthenticationPolicy_Type : string := "policy".

(** [Port] and [Service] of the service model; only the fields the three
    files read are kept ([Protocol] is a string type in the source). *)
Record Port : Type := mkPort {
  Port_Name : string;
  Port_Port : Z;
  Port_Protocol : string;
}.

Record Service : Type := mkService {
  Service_Hostname : Hostname;
  Service_Address : string;
  Service_Ports : list Port;
  Service_MeshExternal : bool;
}.

Inductive TrafficDirection : Type := TrafficDirectionInbound | TrafficDirectionOutbound.

(** ** Messages of the API packages (generated protobuf code) *)

(** [routing.IstioService]. *)
Record IstioService : Type := mkIstioService {
  IS_Name : string;
  IS_Namespace : string;
  IS_Domain : string;
  IS_Service : string;
  IS_Labels : gmap string string;
}.

(** [networking.StringMatch]: a oneof, possibly unset. *)
Inductive StringMatch : Type :=
  | StringMatch_Exact (s : string)
  | StringMatch_Prefix (s : string)
  | StringMatch_Regex (s : string)
  | StringMatch_unset.

(** [networking.PortSelector]: a oneof, possibly unset. *)
Inductive PortSelector : Type :=
  | PortSelector_Name (name : string)
  | PortSelector_Number (number : Z)
  | PortSelector_unset.

Record Destination : Type := mkDestination {
  Dest_Host : string;
  Dest_Subset : string;
  Dest_Port : option PortSelector;
}.

Record DestinationWeight : Type := mkDestinationWeight {
  DW_Destination : Destination;
  DW_Weight : Z;   (* int32 *)
}.

(** A protobuf duration: seconds and nanoseconds. *)
Record GogoDuration : Type := mkGogoDuration {
  Seconds : Z;
  Nanos : Z;
}.

Record HTTPMatchRequest : Type := mkHTTPMatchRequest {
  HM_Uri : option StringMatch;
  HM_Scheme : option StringMatch;
  HM_Method : option StringMatch;
  HM_Authority : option StringMatch;
  HM_Headers : gmap string StringMatch;
  HM_Port : Z;   (* uint32 *)
  HM_SourceLabels : gmap string string;
  HM_Gateways : list string;
}.

Record HTTPRedirect : Type := mkHTTPRedirect {
  Redirect_Uri : string;
  Redirect_Authority : string;
}.

Record HTTPRewrite : Type := mkHTTPRewrite {
  Rewrite_Uri : string;
  Rewrite_Authority : string;
}.

Record HTTPRetry : Type := mkHTTPRetry {
  Retry_Attempts : Z;   (* int32 *)
  Retry_PerTryTimeout : option GogoDuration;
}.

Record CorsPolicy : Type := mkCorsPolicy {
  Cors_AllowOrigin : list string;
  Cors_AllowMethods : list string;
  Cors_AllowHeaders : list string;
  Cors_ExposeHeaders : list string;
  Cors_MaxAge : option GogoDuration;
  Cors_AllowCredentials : option bool;
}.

Record HTTPRoute : Type := mkHTTPRoute {
  HR_Match : list HTTPMatchRequest;
  HR_Route : list DestinationWeight;
  HR_Redirect : option HTTPRedirect;
  HR_Rewrite : option HTTPRewrite;
  HR_WebsocketUpgrade : bool;
  HR_Timeout : option GogoDuration;
  HR_Retries : option HTTPRetry;
  HR_Mirror : option Destination;
  HR_CorsPolicy : option CorsPolicy;
  HR_AppendHeaders : gmap string string;
}.

Record L4MatchAttributes : Type := mkL4MatchAttributes {
  L4_DestinationSubnet : string;
  L4_Port : Z;
  L4_SourceLabels : gmap string string;
  L4_Gateways : list string;
}.

Record TCPRoute : Type := mkTCPRoute {
  TR_Match : list L4MatchAttributes;
  TR_Route : list DestinationWeight;
}.

Record VirtualService : Type := mkVirtualService {
  VS_Hosts : list string;
  VS_Gateways : list string;
  VS_Http : list HTTPRoute;
  VS_Tcp : list TCPRoute;
}.

(** [authn.PortSelector], [authn.TargetSelector] and [authn.Policy] (the
    fields [AuthenticationPolicyByDestination] reads). *)
Record TargetSelector : Type := mkTargetSelector {
  Target_Name : string;
  Target_Ports : list PortSelector;
}.

Record Policy : Type := mkPolicy {
  Policy_Targets : list TargetSelector;
}.

(** What a [proto.Message] interface value can hold. *)
Inductive proto_Message : Type :=
  | MsgVirtualService (v : VirtualService)
  | MsgPolicy (p : Policy)
  | MsgOther (messageName : string)
  | MsgNil.

(** The type assertions of the sources. *)
Definition asVirtualService (m : proto_Message) : outcome VirtualService :=
  match m with MsgVirtualService v => Returns v | _ => Panics end.

Definition asPolicy (m : proto_Message) : outcome Policy :=
  match m with MsgPolicy p => Returns p | _ => Panics end.

(** ** Functions of the repository that the three files call and that are
    defined in other files

    They are parameters of the embedding: every definition below that calls
    one of them takes the record, and the theorems hold for every choice. *)

Class ModelAPI : Type := {
  (** [Protocol.IsHTTP]. *)
  IsHTTP : string → bool;
  (** [PortList.Get]: the port of that name, if any. *)
  PortList_Get : list Port → string → option Port;
  (** [PortList.GetByPort]: the port of that number, if any. *)
  PortList_GetByPort : list Port → Z → option Port;
  (** [model.BuildSubsetKey]. *)
  BuildSubsetKey : TrafficDirection → string → Hostname → Port → string;
  (** [util.BlackHoleCluster]. *)
  BlackHoleCluster : string;
  (** [Port.Match] against an authentication port selector. *)
  Port_Match : Port → PortSelector → bool;
  (** [util.GogoDurationToDuration], in nanoseconds. *)
  GogoDurationToDuration : option GogoDuration → Z;
  (** [String] of a protobuf duration. *)
  Duration_String : GogoDuration → string;
}.

(** ** Hostname and label algebra *)

Definition isWildcard (h : Hostname) : bool :=
  match h with
  | String "*"%char _ => true
  | _ => false
  end.

(** Modelled from the spec: [Hostname.Matches], whose body is not among the
    sources.  "[Matches(other)] = literal eq, or needle is [*.x] and other
    ends in [.x] or equals [x]"; the receiver is the needle. *)
Definition Hostname_Matches (needle other : Hostname) : bool :=
  String.eqb needle other ||
  match needle with
  | String "*"%char (String "."%char x) =>
      GoStrings.HasSuffix other ("." +:+ x) || String.eqb other x
  | _ => false
  end.

(** Modelled from the spec: the [Less] method of [Hostnames], whose body is
    not among the sources.  "sort stack by specificity (literal > wildcard;
    longer suffix first) ... Tie-break deterministically on lexicographic
    order". *)
Definition Hostnames_Less (a b : Hostname) : bool :=
  match isWildcard a, isWildcard b with
  | false, true => true
  | true, false => false
  | _, _ =>
      if (String.length a =? String.length b)%nat then String.ltb a b
      else (String.length b <? String.length a)%nat
  end.

(** Modelled from the spec: [Labels.SubsetOf], "the pointwise inclusion
    test"; its body is not among the sources. *)
Definition Labels_SubsetOf (a b : gmap string string) : bool :=
  bool_decide (map_Forall (λ k v, b !! k = Some v) a).

(** Modelled from the spec: [LabelsCollection.IsSupersetOf], "returns true
    iff some labels map in the collection contains every key/value of the
    selector"; its body is not among the sources. *)
Definition IsSupersetOf (labels : list (gmap string string)) (that : gmap string string) : bool :=
  existsb (λ l, Labels_SubsetOf that l) labels.

(** ** config.go *)

(** [ResolveHostname]. *)
Definition ResolveHostname (meta : ConfigMeta) (svc : IstioService) : Hostname :=
  let out := IS_Name svc in
  if negb (String.eqb (IS_Service svc) "") then IS_Service svc
  else
    let out :=
      if negb (String.eqb (IS_Namespace svc) "") then out +:+ "." +:+ IS_Namespace svc
      else if negb (String.eqb (Namespace meta) "") then out +:+ "." +:+ Namespace meta
      else out in
    let out :=
      if negb (String.eqb (IS_Domain svc) "") then out +:+ "." +:+ IS_Domain svc
      else if negb (String.eqb (Domain meta) "") then out +:+ ".svc." +:+ Domain meta
      else out in
    out.

(** [ResolveShortnameToFQDN]. *)
Definition ResolveShortnameToFQDN (host : string) (meta : ConfigMeta) : Hostname :=
  let out := host in
  if String.eqb host "*" then out
  else if negb (GoStrings.ContainsByte "."%char host) then
    let out :=
      if negb (String.eqb (Namespace meta) "") then out +:+ "." +:+ Namespace meta else out in
    let out :=
      if negb (String.eqb (Domain meta) "") then out +:+ ".svc." +:+ Domain meta else out in
    out
  else out.

(** [MostSpecificHostMatch].  [sort.Sort(Hostnames(stack))] sorts the
    caller's slice: the conversion shares the backing array.  The second
    component of the result is the content of that slice after the call. *)
Definition MostSpecificHostMatch (needle : Hostname) (stack : list Hostname)
  : (Hostname * bool) * list Hostname :=
  let stack := sort_Sort Hostnames_Less stack in
  match firstThat (λ h, Hostname_Matches needle h) stack with
  | Some h => ((h, true), stack)
  | None => (("", false), stack)
  end.

(** The [ConfigStore] interface, reduced to [List]; an error is [None]. *)
Record ConfigStore (S : Type) : Type := mkConfigStore {
  List_ : string → string → option (list (Config S));
}.
Arguments List_ {S} _ _ _.

(** *** [VirtualServices]

    The [Spec] of a [Config] is a pointer to a message.  A store may hand out
    the pointers it holds itself (an in-memory store does); the messages
    then live in a heap that the store and its readers share. *)

Definition ref : Type := nat.

(** Dereference with the type assertion; a dangling or nil pointer panics
    like a nil interface. *)
Definition derefVirtualService (h : gmap nat proto_Message) (r : ref) : outcome VirtualService :=
  match h !! r with
  | Some m => asVirtualService m
  | None => Panics
  end.

(** Is the rule bound to one of [gateways]?  (First loop of [VirtualServices],
    the part deciding whether [config] is appended.) *)
Definition boundToGateways (meta : ConfigMeta) (rule : VirtualService)
    (gateways : gmap string bool) : bool :=
  if (length (VS_Gateways rule) =? 0)%nat then lookupB gateways IstioMeshGateway
  else
    existsb (λ g,
      lookupB gateways (ResolveShortnameToFQDN g meta) ||
      (String.eqb g IstioMeshGateway && lookupB gateways g)) (VS_Gateways rule).

(** [for i, g := range gws { if g != IstioMeshGateway { gws[i] = Resolve(g) } }]. *)
Definition resolveGateways (meta : ConfigMeta) (gws : list string) : list string :=
  map (λ g, if negb (String.eqb g IstioMeshGateway)
            then ResolveShortnameToFQDN g meta else g) gws.

Definition resolveDestination (meta : ConfigMeta) (d : Destination) : Destination :=
  {| Dest_Host := ResolveShortnameToFQDN (Dest_Host d) meta;
     Dest_Subset := Dest_Subset d;
     Dest_Port := Dest_Port d |}.

Definition resolveWeights (meta : ConfigMeta) (ws : list DestinationWeight) : list DestinationWeight :=
  map (λ w, {| DW_Destination := resolveDestination meta (DW_Destination w);
               DW_Weight := DW_Weight w |}) ws.

Definition resolveHTTPMatch (meta : ConfigMeta) (m : HTTPMatchRequest) : HTTPMatchRequest :=
  {| HM_Uri := HM_Uri m; HM_Scheme := HM_Scheme m; HM_Method := HM_Method m;
     HM_Authority := HM_Authority m; HM_Headers := HM_Headers m; HM_Port := HM_Port m;
     HM_SourceLabels := HM_SourceLabels m;
     HM_Gateways := resolveGateways meta (HM_Gateways m) |}.

Definition resolveHTTPRoute (meta : ConfigMeta) (d : HTTPRoute) : HTTPRoute :=
  {| HR_Match := map (resolveHTTPMatch meta) (HR_Match d);
     HR_Route := resolveWeights meta (HR_Route d);
     HR_Redirect := HR_Redirect d; HR_Rewrite := HR_Rewrite d;
     HR_WebsocketUpgrade := HR_WebsocketUpgrade d; HR_Timeout := HR_Timeout d;
     HR_Retries := HR_Retries d;
     HR_Mirror := resolveDestination meta <$> HR_Mirror d;
     HR_CorsPolicy := HR_CorsPolicy d; HR_AppendHeaders := HR_AppendHeaders d |}.

Definition resolveL4Match (meta : ConfigMeta) (m : L4MatchAttributes) : L4MatchAttributes :=
  {| L4_DestinationSubnet := L4_DestinationSubnet m; L4_Port := L4_Port m;
     L4_SourceLabels := L4_SourceLabels m;
     L4_Gateways := resolveGateways meta (L4_Gateways m) |}.

Definition resolveTCPRoute (meta : ConfigMeta) (d : TCPRoute) : TCPRoute :=
  {| TR_Match := map (resolveL4Match meta) (TR_Match d);
     TR_Route := resolveWeights meta (TR_Route d) |}.

(** The body of the second loop of [VirtualServices]: everything it writes
    into the message [rule] points to. *)
Definition resolveVirtualService (meta : ConfigMeta) (rule : VirtualService) : VirtualService :=
  {| VS_Hosts := map (λ h, ResolveShortnameToFQDN h meta) (VS_Hosts rule);
     VS_Gateways := resolveGateways meta (VS_Gateways rule);
     VS_Http := map (resolveHTTPRoute meta) (VS_Http rule);
     VS_Tcp := map (resolveTCPRoute meta) (VS_Tcp rule) |}.

(** [VirtualServices]: the configs returned ([None] for the [nil] returned on
    a store error) and the heap after the call. *)
Definition VirtualServices (store : ConfigStore ref) (h : gmap nat proto_Message)
    (gateways : gmap string bool)
  : outcome (option (list (Config ref)) * gmap nat proto_Message) :=
  match List_ store VirtualService_Type NamespaceAll with
  | None => Returns (None, h)
  | Some configs =>
      out ← forEach (λ out config,
               rule ← derefVirtualService h (Spec config);
               Returns (if boundToGateways (Meta config) rule gateways
                        then out ++ [config] else out)) configs [];
      h' ← forEach (λ h r,
               rule ← derefVirtualService h (Spec r);
               Returns (<[Spec r := MsgVirtualService (resolveVirtualService (Meta r) rule)]> h))
             out h;
      Returns (Some out, h')
  end.

(** *** [AuthenticationPolicyByDestination] *)

Section AuthenticationPolicy.
Context `{API : ModelAPI}.

(** The inner loop over [policy.Targets]: 3 as soon as a target names the
    host and, when it lists ports, one of them matches; 0 when none does. *)
Fixpoint targetsMatchLevel (meta : ConfigMeta) (hostname : Hostname) (port : Port)
    (targets : list TargetSelector) : Z :=
  match targets with
  | [] => 0
  | dest :: rest =>
      if negb (String.eqb hostname
                 (ResolveHostname meta
                    {| IS_Name := Target_Name dest; IS_Namespace := ""; IS_Domain := "";
                       IS_Service := ""; IS_Labels := ∅ |}))
      then targetsMatchLevel meta hostname port rest
      else if (0 <? length (Target_Ports dest))%nat
              && negb (existsb (Port_Match port) (Target_Ports dest))
      then targetsMatchLevel meta hostname port rest
      else 3
  end.

(** [matchLevel] of one policy: 3 workload (service), 2 namespace, 0 no
    match.  Level 1 (global) is named in the source's comment and never
    assigned. *)
Definition policyMatchLevel (meta : ConfigMeta) (hostname : Hostname) (port : Port)
    (policy : Policy) : Z :=
  if (0 <? length (Policy_Targets policy))%nat
  then targetsMatchLevel meta hostname port (Policy_Targets policy)
  else 2.

(** The zero [Config] of [var out Config]. *)
Definition zeroConfigMeta : ConfigMeta :=
  mkConfigMeta "" "" "" "" "" "" ∅ ∅ "".

Definition zeroConfig : Config proto_Message := mkConfig zeroConfigMeta MsgNil.

(** One iteration of the loop over [specs]; the state is
    [(out, currentMatchLevel)]. *)
Definition policyStep (hostname : Hostname) (port : Port)
    (st : Config proto_Message * Z) (spec : Config proto_Message)
  : outcome (Config proto_Message * Z) :=
  policy ← asPolicy (Spec spec);
  let matchLevel := policyMatchLevel (Meta spec) hostname port policy in
  Returns (if snd st <? matchLevel then (spec, matchLevel) else st).

Definition AuthenticationPolicyByDestination (store : ConfigStore proto_Message)
    (hostname : Hostname) (port : Port) : outcome (option (Config proto_Message)) :=
  let parts := GoStrings.SplitByte "."%char hostname in
  if (length parts <? 2)%nat then Returns None
  else
    let namespace := nth 1 parts "" in
    match List_ store AuthenticationPolicy_Type namespace with
    | None => Returns None
    | Some specs =>
        st ← forEach (policyStep hostname port) specs (zeroConfig, 0);
        Returns (if snd st =? 0 then None else Some (fst st))
    end.

End AuthenticationPolicy.

(** ** Envoy route messages (generated code of go-control-plane) *)

Inductive PathSpecifier : Type :=
  | RouteMatch_Prefix (prefix : string)
  | RouteMatch_Path (path : string)
  | RouteMatch_Regex (regex : string).

Record HeaderMatcher : Type := mkHeaderMatcher {
  Header_Name : string;
  Header_Value : string;
  Header_Regex : option bool;
}.

Record RouteMatch : Type := mkRouteMatch {
  RM_PathSpecifier : PathSpecifier;
  RM_Headers : list HeaderMatcher;
}.

Record RouteCorsPolicy : Type := mkRouteCorsPolicy {
  RC_AllowOrigin : list string;
  RC_AllowMethods : string;
  RC_AllowHeaders : string;
  RC_ExposeHeaders : string;
  RC_MaxAge : string;
  RC_AllowCredentials : option bool;
  RC_Enabled : option bool;
}.

Record RetryPolicy : Type := mkRetryPolicy {
  RP_RetryOn : string;
  RP_NumRetries : Z;       (* uint32 *)
  RP_PerTryTimeout : Z;    (* nanoseconds *)
}.

Record ClusterWeight : Type := mkClusterWeight {
  CW_Name : string;
  CW_Weight : Z;           (* uint32 *)
}.

Inductive ClusterSpecifier : Type :=
  | RouteAction_Cluster (cluster : string)
  | RouteAction_WeightedClusters (clusters : list ClusterWeight).

Record RouteAction : Type := mkRouteAction {
  RA_Cors : option RouteCorsPolicy;
  RA_RetryPolicy : option RetryPolicy;
  RA_UseWebsocket : option bool;
  RA_Timeout : option Z;
  RA_PrefixRewrite : string;
  RA_HostRewrite : option string;
  RA_RequestHeadersToAdd : list (string * string);
  RA_RequestMirrorPolicy : option string;
  RA_ClusterSpecifier : ClusterSpecifier;
}.

Record RedirectAction : Type := mkRedirectAction {
  HostRedirect : string;
  PathRedirect : string;
}.

Inductive RouteActionOneof : Type :=
  | Route_Redirect (r : RedirectAction)
  | Route_Route (a : RouteAction).

Record Route : Type := mkRoute {
  Route_Match : RouteMatch;
  Route_Decorator : string;    (* Decorator.Operation *)
  Route_Action : RouteActionOneof;
}.

(** ** route.go *)

Definition HeaderMethod : string := ":method".
Definition HeaderAuthority : string := ":authority".
Definition HeaderScheme : string := ":scheme".
Definition DefaultRoute : string := "default-route".

(** Go conversions between integer types. *)
Definition uint32 (z : Z) : Z := z mod 2^32.

(** [GuardedHost]. *)
Record GuardedHost : Type := mkGuardedHost {
  GH_Port : Z;
  GH_Services : list Service;
  GH_Hosts : list string;
  GH_Routes : list Route;
}.

(** The zero value of [GuardedHost], what [make([]GuardedHost, n)] is filled
    with. *)
Definition zeroGuardedHost : GuardedHost := mkGuardedHost 0 [] [] [].

(** [regexp.QuoteMeta]: a backslash before each of the bytes
    [\.+*?()|[]{}^$]. *)
Definition isRegexpSpecial (c : Ascii.ascii) : bool :=
  existsb (Ascii.eqb c)
    ["\"; "."; "+"; "*"; "?"; "("; ")"; "|"; "["; "]"; "{"; "}"; "^"; "$"]%char.

Fixpoint QuoteMeta (s : string) : string :=
  match s with
  | EmptyString => EmptyString
  | String c rest =>
      if isRegexpSpecial c then String "\"%char (String c (QuoteMeta rest))
      else String c (QuoteMeta rest)
  end.

(** [translateHeaderMatch]. *)
Definition translateHeaderMatch (name : string) (m : StringMatch) : HeaderMatcher :=
  match m with
  | StringMatch_Exact e => mkHeaderMatcher name e None
  | StringMatch_Prefix p => mkHeaderMatcher name ("^" +:+ QuoteMeta p +:+ ".*") (Some true)
  | StringMatch_Regex r => mkHeaderMatcher name r (Some true)
  | StringMatch_unset => mkHeaderMatcher name "" None
  end.

(** The comparison handed to [sort.Slice] in [translateRouteMatch]. *)
Definition headerLess (a b : HeaderMatcher) : bool :=
  if String.eqb (Header_Name a) (Header_Name b)
  then String.ltb (Header_Value a) (Header_Value b)
  else String.ltb (Header_Name a) (Header_Name b).

Definition appendHeader (name : string) (m : option StringMatch) (hs : list HeaderMatcher)
  : list HeaderMatcher :=
  match m with
  | Some sm => hs ++ [translateHeaderMatch name sm]
  | None => hs
  end.

(** [translateRouteMatch].  The headers of the map are collected in the
    map's iteration order and then sorted by name; names are the keys of the
    map, so the sorted slice does not depend on that order. *)
Definition translateRouteMatch (match_ : option HTTPMatchRequest) : RouteMatch :=
  match match_ with
  | None => mkRouteMatch (RouteMatch_Prefix "/") []
  | Some m =>
      let headers :=
        sort_Sort headerLess
          (map (λ kv, translateHeaderMatch (fst kv) (snd kv)) (map_to_list (HM_Headers m))) in
      let path :=
        match HM_Uri m with
        | Some (StringMatch_Exact e) => RouteMatch_Path e
        | Some (StringMatch_Prefix p) => RouteMatch_Prefix p
        | Some (StringMatch_Regex r) => RouteMatch_Regex r
        | _ => RouteMatch_Prefix "/"
        end in
      let headers := appendHeader HeaderMethod (HM_Method m) headers in
      let headers := appendHeader HeaderAuthority (HM_Authority m) headers in
      let headers := appendHeader HeaderScheme (HM_Scheme m) headers in
      mkRouteMatch path headers
  end.

(** [sourceMatchHTTP]. *)
Definition sourceMatchHTTP (match_ : option HTTPMatchRequest)
    (proxyLabels : list (gmap string string)) (gatewayNames : gmap string bool) : bool :=
  match match_ with
  | None => true
  | Some m =>
      if (0 <? length (HM_Gateways m))%nat
      then existsb (λ g, lookupB gatewayNames g) (HM_Gateways m)
      else IsSupersetOf proxyLabels (HM_SourceLabels m)
  end.

Section RouteCompiler.
Context `{API : ModelAPI}.

(** [translateRetryPolicy]. *)
Definition translateRetryPolicy (r : option HTTPRetry) : option RetryPolicy :=
  match r with
  | Some r =>
      if 0 <? Retry_Attempts r
      then Some {| RP_NumRetries := uint32 (Retry_Attempts r);
                   RP_RetryOn := "5xx,connect-failure,refused-stream";
                   RP_PerTryTimeout := GogoDurationToDuration (Retry_PerTryTimeout r) |}
      else None
  | None => None
  end.

(** [translateCORSPolicy]. *)
Definition translateCORSPolicy (c : option CorsPolicy) : option RouteCorsPolicy :=
  match c with
  | None => None
  | Some c =>
      Some {| RC_AllowOrigin := Cors_AllowOrigin c;
              RC_Enabled := Some true;
              RC_AllowCredentials := Cors_AllowCredentials c;
              RC_AllowHeaders := GoStrings.Join (Cors_AllowHeaders c) ",";
              RC_AllowMethods := GoStrings.Join (Cors_AllowMethods c) ",";
              RC_ExposeHeaders := GoStrings.Join (Cors_ExposeHeaders c) ",";
              RC_MaxAge := match Cors_MaxAge c with
                           | Some d => Duration_String d
                           | None => ""
                           end |}
  end.

(** [BuildDefaultHTTPRoute]. *)
Definition BuildDefaultHTTPRoute (clusterName : string) : Route :=
  {| Route_Match := translateRouteMatch None;
     Route_Decorator := DefaultRoute;
     Route_Action := Route_Route
       {| RA_Cors := None; RA_RetryPolicy := None; RA_UseWebsocket := None;
          RA_Timeout := None; RA_PrefixRewrite := ""; RA_HostRewrite := None;
          RA_RequestHeadersToAdd := []; RA_RequestMirrorPolicy := None;
          RA_ClusterSpecifier := RouteAction_Cluster clusterName |} |}.

(** [ConvertDestinationToCluster].  [vsvcName] and the rule are only used
    for the log lines and the two gauges, which are not modelled. *)
Definition ConvertDestinationToCluster (destination : Destination) (vsvcName : string)
    (serviceIndex : gmap string Service) (defaultPort : Z) : string :=
  match serviceIndex !! Dest_Host destination with
  | None => BlackHoleCluster
  | Some svc =>
      let svcPort := PortList_GetByPort (Service_Ports svc) defaultPort in
      let svcPort :=
        match Dest_Port destination with
        | Some (PortSelector_Name name) => PortList_Get (Service_Ports svc) name
        | Some (PortSelector_Number number) => PortList_GetByPort (Service_Ports svc) number
        | _ => svcPort
        end in
      match svcPort with
      | None => BlackHoleCluster
      | Some svcPort =>
          BuildSubsetKey TrafficDirectionOutbound (Dest_Subset destination)
            (Service_Hostname svc) svcPort
      end
  end.

(** The loop of [translateRoute] over [in.Route] that fills [weighted]. *)
Definition weightedClusters (route : list DestinationWeight) (operation : string)
    (serviceIndex : gmap string Service) (port : Z) : list ClusterWeight :=
  foldl (λ weighted dst,
      let weight := uint32 (DW_Weight dst) in
      let weight := if DW_Weight dst =? 0 then uint32 100 else weight in
      let n := ConvertDestinationToCluster (DW_Destination dst) operation serviceIndex port in
      weighted ++ [ {| CW_Name := n; CW_Weight := weight |} ])
    [] route.

(** The end of [translateRoute]: the cluster specifier chosen from
    [weighted]. *)
Definition clusterSpecifier (weighted : list ClusterWeight) : ClusterSpecifier :=
  match weighted with
  | [w] => RouteAction_Cluster (CW_Name w)
  | _ => RouteAction_WeightedClusters weighted
  end.

(** [translateRoute]; [None] is the [nil] route. *)
Definition translateRoute (in_ : HTTPRoute) (match_ : option HTTPMatchRequest) (port : Z)
    (operation : string) (serviceIndex : gmap string Service)
    (proxyLabels : list (gmap string string)) (gatewayNames : gmap string bool)
  : option Route :=
  if negb (sourceMatchHTTP match_ proxyLabels gatewayNames) then None
  else if match match_ with
          | Some m => negb (HM_Port m =? 0) && negb (HM_Port m =? uint32 port)
          | None => false
          end then None
  else
    let action :=
      match HR_Redirect in_ with
      | Some redirect =>
          Route_Redirect {| HostRedirect := Redirect_Authority redirect;
                            PathRedirect := Redirect_Uri redirect |}
      | None =>
          Route_Route
            {| RA_Cors := translateCORSPolicy (HR_CorsPolicy in_);
               RA_RetryPolicy := translateRetryPolicy (HR_Retries in_);
               RA_UseWebsocket := Some (HR_WebsocketUpgrade in_);
               RA_Timeout :=
                 match HR_Timeout in_ with
                 | Some d => Some (GogoDurationToDuration (Some d))
                 | None => None
                 end;
               RA_PrefixRewrite :=
                 match HR_Rewrite in_ with Some rw => Rewrite_Uri rw | None => "" end;
               RA_HostRewrite :=
                 match HR_Rewrite in_ with Some rw => Some (Rewrite_Authority rw) | None => None end;
               RA_RequestHeadersToAdd := map_to_list (HR_AppendHeaders in_);
               RA_RequestMirrorPolicy :=
                 match HR_Mirror in_ with
                 | Some mirror =>
                     Some (ConvertDestinationToCluster mirror operation serviceIndex port)
                 | None => None
                 end;
               RA_ClusterSpecifier :=
                 clusterSpecifier (weightedClusters (HR_Route in_) operation serviceIndex port) |}
      end in
    Some {| Route_Match := translateRouteMatch match_;
            Route_Decorator := operation;
            Route_Action := action |}.

(** [out = append(out, *r)] when [r != nil]. *)
Definition appendRoute (out : list Route) (r : option Route) : list Route :=
  match r with
  | Some r => out ++ [r]
  | None => out
  end.

(** The loop of [TranslateRoutes] over [rule.Http], with its [break]. *)
Fixpoint translateRules (rules : list HTTPRoute) (port : Z) (operation : string)
    (serviceIndex : gmap string Service) (proxyLabels : list (gmap string string))
    (gatewayNames : gmap string bool) (out : list Route) : list Route :=
  match rules with
  | [] => out
  | http :: rest =>
      if (length (HR_Match http) =? 0)%nat
      then
        (* break: the rules after this one are not visited *)
        appendRoute out
          (translateRoute http None port operation serviceIndex proxyLabels gatewayNames)
      else
        let out :=
          foldl (λ out match_,
                   appendRoute out
                     (translateRoute http (Some match_) port operation serviceIndex
                        proxyLabels gatewayNames))
                out (HR_Match http) in
        translateRules rest port operation serviceIndex proxyLabels gatewayNames out
  end.

Inductive RouteError : Type :=
  | NotAVirtualService       (* "in not a virtual service: ..." *)
  | NoRoutesMatched.         (* "no routes matched" *)

(** [TranslateRoutes]: the routes, or the error. *)
Definition TranslateRoutes (virtualService : Config proto_Message)
    (serviceIndex : gmap string Service) (port : Z)
    (proxyLabels : list (gmap string string)) (gatewayNames : gmap string bool)
  : list Route + RouteError :=
  match Spec virtualService with
  | MsgVirtualService rule =>
      let operation := Name (Meta virtualService) in
      let out :=
        translateRules (VS_Http rule) port operation serviceIndex proxyLabels gatewayNames [] in
      if (length out =? 0)%nat then inr NoRoutesMatched else inl out
  | _ => inr NotAVirtualService
  end.

(** [matchServiceHosts]: the literal hosts and the services. *)
Definition matchServiceHosts (in_ : Config proto_Message) (serviceIndex : gmap string Service)
  : outcome (list string * list Service) :=
  rule ← asVirtualService (Spec in_);
  Returns (foldl (λ acc host,
                    match serviceIndex !! host with
                    | Some svc => (fst acc, snd acc ++ [svc])
                    | None => (fst acc ++ [host], snd acc)
                    end)
                 ([], []) (VS_Hosts rule)).

(** The first loop of [translateVirtualHost]: [serviceByPort]. *)
Definition groupByPort (services : list Service) : gmap Z (list Service) :=
  foldl (λ serviceByPort svc,
      foldl (λ serviceByPort port,
          if IsHTTP (Port_Protocol port)
          then <[Port_Port port :=
                   default [] (serviceByPort !! Port_Port port) ++ [svc]]> serviceByPort
          else serviceByPort)
        serviceByPort (Service_Ports svc))
    ∅ services.

(** [translateVirtualHost].  The result slice is made with
    [make([]GuardedHost, len(serviceByPort))], that is, with as many zero
    entries as there are ports, and the hosts are appended after them.  The
    map [serviceByPort] is visited in the order of [map_to_list]. *)
Definition translateVirtualHost (in_ : Config proto_Message)
    (serviceIndex : gmap string Service) (proxyLabels : list (gmap string string))
    (gatewayName : gmap string bool) : outcome (list GuardedHost) :=
  hs ← matchServiceHosts in_ serviceIndex;
  let hosts := fst hs in
  let services := snd hs in
  let serviceByPort := groupByPort services in
  let serviceByPort :=
    if (size serviceByPort =? 0)%nat then <[80 := []]> serviceByPort else serviceByPort in
  let out := replicate (size serviceByPort) zeroGuardedHost in
  Returns
    (foldl (λ out kv,
        match TranslateRoutes in_ serviceIndex (fst kv) proxyLabels gatewayName with
        | inl routes =>
            if (length routes =? 0)%nat then out
            else out ++ [ {| GH_Port := fst kv; GH_Services := snd kv;
                             GH_Hosts := hosts; GH_Routes := routes |} ]
        | inr _ => out
        end)
      out (map_to_list serviceByPort)).

(** The default hosts of one service: one per HTTP port. *)
Definition defaultHosts (svc : Service) : list GuardedHost :=
  foldl (λ out port,
      if IsHTTP (Port_Protocol port)
      then
        let cluster :=
          BuildSubsetKey TrafficDirectionOutbound "" (Service_Hostname svc) port in
        out ++ [ {| GH_Port := Port_Port port; GH_Services := [svc]; GH_Hosts := [];
                    GH_Routes := [BuildDefaultHTTPRoute cluster] |} ]
      else out)
    [] (Service_Ports svc).

(** [TranslateVirtualHosts].  [missing] is visited in the order of
    [map_to_list]. *)
Definition TranslateVirtualHosts (serviceConfigs : list (Config proto_Message))
    (services : gmap string Service) (proxyLabels : list (gmap string string))
    (gatewayNames : gmap string bool) : outcome (list GuardedHost) :=
  out ← forEach (λ out config,
           vhosts ← translateVirtualHost config services proxyLabels gatewayNames;
           Returns (out ++ vhosts)) serviceConfigs [];
  let missing : gmap string bool := (λ _, true) <$> services in
  let missing :=
    foldl (λ missing host,
             foldl (λ missing service, delete (Service_Hostname service) missing)
                   missing (GH_Services host))
          missing out in
  forEach (λ out kv,
      match services !! fst kv with
      | Some svc => Returns (out ++ defaultHosts svc)
      | None => Panics
      end)
    (map_to_list missing) out.

End RouteCompiler.

(** ** The ADS stream handler ([StreamAggregatedResources]) *)

(** [model.Proxy], the parsed node identity. *)
Record Proxy : Type := mkProxy {
  Proxy_Type : string;
  Proxy_IPAddress : string;
  Proxy_ID : string;
  Proxy_Domain : string;
  Proxy_Metadata : gmap string string;
}.

(** [xdsapi.DiscoveryRequest]; [ErrorDetail] is reduced to its message. *)
Record DiscoveryRequest : Type := mkDiscoveryRequest {
  Node_Id : string;
  Node_Metadata : gmap string string;
  TypeUrl : string;
  ResourceNames : list string;
  VersionInfo : string;
  ResponseNonce : string;
  ErrorDetail : option string;
}.

Section ADS.
(** The generated message types that the handler only passes around. *)
Context {RouteConfiguration Listener Cluster Any ServiceInstance : Type}.

Record DiscoveryResponse : Type := mkDiscoveryResponse {
  Resp_TypeUrl : string;
  Resp_VersionInfo : string;
  Resp_Nonce : string;
  Resp_Resources : list Any;
}.

(** [XdsConnection]: the fields the handler reads or writes.  The channel,
    the stream and the connect time are not state of the model: what goes
    out on the stream is recorded in the trace below. *)
Record XdsConnection : Type := mkXdsConnection {
  PeerAddr : string;
  ConID : string;
  modelNode : option Proxy;
  HTTPListeners : list Listener;
  RouteConfigs : gmap string RouteConfiguration;
  HTTPClusters : list Cluster;
  Clusters : list string;
  Routes : list string;
  LDSWatch : bool;
  CDSWatch : bool;
  added : bool;
}.

(** What the handler does to the outside, in order. *)
Inductive Effect : Type :=
  | Sent (r : DiscoveryResponse)                 (* [con.stream.Send] succeeded *)
  | RejectMetric (gauge node err : string)       (* [xxxReject.With(...).Add(1)] *)
  | AddEdsCon (cluster conID : string)           (* [s.addEdsCon] *)
  | AddCon (conID : string).                     (* [s.addCon] and the deferred [removeCon] *)

Record AdsState : Type := mkAdsState {
  con : XdsConnection;
  trace : list Effect;
}.

(** A handler action: it may end the stream with an error ([None] is the
    [nil] error of a clean close), and it leaves a state in both cases. *)
Definition Ads (A : Type) : Type := AdsState → (A + option string) * AdsState.

#[global] Instance Ads_ret : MRet Ads := λ A a st, (inl a, st).
#[global] Instance Ads_bind : MBind Ads := λ A B f m st,
  match m st with
  | (inl a, st') => f a st'
  | (inr e, st') => (inr e, st')
  end.

Definition returnErr {A} (e : option string) : Ads A := λ st, (inr e, st).
Definition getCon : Ads XdsConnection := λ st, (inl (con st), st).
Definition modifyCon (f : XdsConnection → XdsConnection) : Ads unit :=
  λ st, (inl tt, mkAdsState (f (con st)) (trace st)).
Definition emit (e : Effect) : Ads unit :=
  λ st, (inl tt, mkAdsState (con st) (trace st ++ [e])).
Definition when (b : bool) (m : Ads unit) : Ads unit := if b then m else mret tt.

Fixpoint forM_ {A} (l : list A) (f : A → Ads unit) : Ads unit :=
  match l with
  | [] => mret tt
  | x :: rest => f x ≫= λ _, forM_ rest f
  end.

(** The responses sent on the stream so far. *)
Definition sent (st : AdsState) : list DiscoveryResponse :=
  omap (λ e, match e with Sent r => Some r | _ => None end) (trace st).

(** Field updates of the connection. *)
Definition set_modelNode (n : Proxy) (c : XdsConnection) : XdsConnection :=
  mkXdsConnection (PeerAddr c) (ConID c) (Some n) (HTTPListeners c) (RouteConfigs c)
    (HTTPClusters c) (Clusters c) (Routes c) (LDSWatch c) (CDSWatch c) (added c).
Definition set_ConID (id : string) (c : XdsConnection) : XdsConnection :=
  mkXdsConnection (PeerAddr c) id (modelNode c) (HTTPListeners c) (RouteConfigs c)
    (HTTPClusters c) (Clusters c) (Routes c) (LDSWatch c) (CDSWatch c) (added c).
Definition set_RouteConfigs (m : gmap string RouteConfiguration) (c : XdsConnection) : XdsConnection :=
  mkXdsConnection (PeerAddr c) (ConID c) (modelNode c) (HTTPListeners c) m
    (HTTPClusters c) (Clusters c) (Routes c) (LDSWatch c) (CDSWatch c) (added c).
Definition set_Clusters (l : list string) (c : XdsConnection) : XdsConnection :=
  mkXdsConnection (PeerAddr c) (ConID c) (modelNode c) (HTTPListeners c) (RouteConfigs c)
    (HTTPClusters c) l (Routes c) (LDSWatch c) (CDSWatch c) (added c).
Definition set_Routes (l : list string) (c : XdsConnection) : XdsConnection :=
  mkXdsConnection (PeerAddr c) (ConID c) (modelNode c) (HTTPListeners c) (RouteConfigs c)
    (HTTPClusters c) (Clusters c) l (LDSWatch c) (CDSWatch c) (added c).
Definition set_LDSWatch (b : bool) (c : XdsConnection) : XdsConnection :=
  mkXdsConnection (PeerAddr c) (ConID c) (modelNode c) (HTTPListeners c) (RouteConfigs c)
    (HTTPClusters c) (Clusters c) (Routes c) b (CDSWatch c) (added c).
Definition set_CDSWatch (b : bool) (c : XdsConnection) : XdsConnection :=
  mkXdsConnection (PeerAddr c) (ConID c) (modelNode c) (HTTPListeners c) (RouteConfigs c)
    (HTTPClusters c) (Clusters c) (Routes c) (LDSWatch c) b (added c).
Definition set_added (b : bool) (c : XdsConnection) : XdsConnection :=
  mkXdsConnection (PeerAddr c) (ConID c) (modelNode c) (HTTPListeners c) (RouteConfigs c)
    (HTTPClusters c) (Clusters c) (Routes c) (LDSWatch c) (CDSWatch c) b.

(** What the handler calls and is defined elsewhere in the repository, or
    depends on the transport and the clock.  [pushCds], [pushLds] and
    [pushEds] are arbitrary actions: they may send, fail and update the
    connection. *)
Class AdsEnv : Type := {
  ClusterType : string;
  ListenerType : string;
  RouteType : string;
  EndpointType : string;
  ParseServiceNode : string → Proxy + string;
  ParseMetadata : gmap string string → gmap string string;
  connectionID : string → string;
  pushCds : Proxy → Ads unit;
  pushLds : Proxy → Ads unit;
  pushEds : Ads unit;
  GetProxyServiceInstances : option Proxy → list ServiceInstance + string;
  BuildSidecarOutboundHTTPRouteConfig :
    Proxy → list ServiceInstance → string → RouteConfiguration;
  MarshalAny : RouteConfiguration → Any;
  versionInfo : string;
  nonce : string;
  (** [con.stream.Send]: [None] when the response went out. *)
  streamSend : DiscoveryResponse → option string;
}.

Context `{Env : AdsEnv}.

(** [routeDiscoveryResponse]; it never fails. *)
Definition routeDiscoveryResponse (ls : list RouteConfiguration) : DiscoveryResponse :=
  {| Resp_TypeUrl := RouteType;
     Resp_VersionInfo := versionInfo;
     Resp_Nonce := nonce;
     Resp_Resources := map MarshalAny ls |}.

(** [*con.modelNode]: a nil pointer dereference ends the handler; the
    panic is rendered as an error. *)
Definition derefNode : Ads Proxy := λ st,
  match modelNode (con st) with
  | Some n => (inl n, st)
  | None => (inr (Some "nil pointer dereference"), st)
  end.

(** [pushRoute]. *)
Definition pushRoute : Ads unit :=
  c ← getCon;
  match GetProxyServiceInstances (modelNode c) with
  | inr err => returnErr (Some err)
  | inl proxyInstances =>
      node ← derefNode;
      let rc :=
        map (BuildSidecarOutboundHTTPRouteConfig node proxyInstances) (Routes c) in
      modifyCon (λ c,
        set_RouteConfigs
          (foldl (λ m routeName,
                    <[routeName :=
                        BuildSidecarOutboundHTTPRouteConfig node proxyInstances routeName]> m)
                 (RouteConfigs c) (Routes c)) c) ≫= λ _,
      let response := routeDiscoveryResponse rc in
      match streamSend response with
      | Some err => returnErr (Some err)
      | None => emit (Sent response)
      end
  end.

(** The [switch discReq.TypeUrl] of the handler.  It returns [true] when the
    case ends in [continue], which skips the registration after the switch. *)
Definition handleTypeUrl (discReq : DiscoveryRequest) : Ads bool :=
  c ← getCon;
  if String.eqb (TypeUrl discReq) ClusterType then
    if CDSWatch c then
      (match ErrorDetail discReq with
       | Some msg => emit (RejectMetric "pilot_xds_cds_reject" (Node_Id discReq) msg)
       | None => mret tt
       end) ≫= λ _, mret true
    else
      modifyCon (set_CDSWatch true) ≫= λ _,
      node ← derefNode;
      pushCds node ≫= λ _, mret false
  else if String.eqb (TypeUrl discReq) ListenerType then
    if LDSWatch c then
      (match ErrorDetail discReq with
       | Some msg => emit (RejectMetric "pilot_xds_lds_reject" (Node_Id discReq) msg)
       | None => mret tt
       end) ≫= λ _, mret true
    else
      modifyCon (set_LDSWatch true) ≫= λ _,
      node ← derefNode;
      pushLds node ≫= λ _, mret false
  else if String.eqb (TypeUrl discReq) RouteType then
    let routes := ResourceNames discReq in
    if ((length routes =? length (Routes c))%nat || (length routes =? 0)%nat)
       && (0 <? length (Routes c))%nat
    then mret true
    else
      modifyCon (set_Routes routes) ≫= λ _,
      pushRoute ≫= λ _, mret false
  else if String.eqb (TypeUrl discReq) EndpointType then
    let clusters := ResourceNames discReq in
    let ackShape := ((length clusters =? length (Clusters c))%nat || (length clusters =? 0)%nat) in
    when ackShape
      (match ErrorDetail discReq with
       | Some msg => emit (RejectMetric "pilot_xds_eds_reject" (Node_Id discReq) msg)
       | None => mret tt
       end) ≫= λ _,
    if ackShape && (0 <? length (Clusters c))%nat
    then mret true
    else
      modifyCon (set_Clusters clusters) ≫= λ _,
      forM_ clusters (λ cl, c' ← getCon; emit (AddEdsCon cl (ConID c'))) ≫= λ _,
      pushEds ≫= λ _, mret false
  else mret false.

(** The handler records the parsed node and, on the first request, the
    connection id. *)
Definition identifyNode (discReq : DiscoveryRequest) (nt : Proxy) : Ads unit :=
  let nt := mkProxy (Proxy_Type nt) (Proxy_IPAddress nt) (Proxy_ID nt) (Proxy_Domain nt)
              (ParseMetadata (Node_Metadata discReq)) in
  modifyCon (set_modelNode nt) ≫= λ _,
  c ← getCon;
  when (String.eqb (ConID c) "")
       (modifyCon (set_ConID (connectionID (Node_Id discReq)))).

(** After the switch: [if !con.added { ... }]. *)
Definition registerConnection : Ads unit :=
  c ← getCon;
  when (negb (added c))
       (modifyCon (set_added true) ≫= λ _, c' ← getCon; emit (AddCon (ConID c'))).

(** The body of [case discReq, ok = <-reqChannel] for a received request. *)
Definition handleRequest (discReq : DiscoveryRequest) : Ads unit :=
  if String.eqb (Node_Id discReq) "" then mret tt
  else
    match ParseServiceNode (Node_Id discReq) with
    | inr err => returnErr (Some err)
    | inl nt =>
        identifyNode discReq nt ≫= λ _,
        continue_ ← handleTypeUrl discReq;
        if continue_ : bool then mret tt else registerConnection
    end.

(** The body of [case <-con.pushChannel]. *)
Definition handlePush : Ads unit :=
  c ← getCon;
  when (CDSWatch c) (node ← derefNode; pushCds node) ≫= λ _,
  c ← getCon;
  when (0 <? length (Routes c))%nat pushRoute ≫= λ _,
  c ← getCon;
  when (0 <? length (Clusters c))%nat pushEds ≫= λ _,
  c ← getCon;
  when (LDSWatch c) (node ← derefNode; pushLds node).

(** What the [select] of the handler can receive. *)
Inductive StreamEvent : Type :=
  | Request (r : DiscoveryRequest)
  | RequestsClosed (receiveError : option string)
  | PushSignal.

Definition handleEvent (ev : StreamEvent) : Ads unit :=
  match ev with
  | Request r => handleRequest r
  | RequestsClosed e => returnErr e
  | PushSignal => handlePush
  end.

(** The [for { select { ... } }] loop over the events that arrive. *)
Definition StreamAggregatedResources (events : list StreamEvent) : Ads unit :=
  forM_ events handleEvent.

End ADS.

(** ** Instances and spec-side definitions used by the statements *)



(** The specificity order in the spec's words: a literal before a wildcard,
    then the longer name, then the lexicographically smaller one. *)
Definition moreSpecific (a b : Hostname) : Prop :=
  (isWildcard a = false ∧ isWildcard b = true)
  ∨ (isWildcard a = isWildcard b ∧ (String.length b < String.length a)%nat)
  ∨ (isWildcard a = isWildcard b ∧ String.length a = String.length b
     ∧ String.compare a b = Lt).

(** The name of a traffic direction in a subset key. *)
Definition directionString (d : TrafficDirection) : string :=
  match d with
  | TrafficDirectionInbound => "inbound"
  | TrafficDirectionOutbound => "outbound"
  end.

(** Modelled from the spec: the helper functions defined outside the
    sources, for evaluating the definitions on concrete inputs.  The subset
    key is "[direction|subset|host|port]", in bijection with direction,
    subset, hostname and port name; the HTTP-compatible protocols are those
    of section 4.4 (HTTP, HTTP2, GRPC); ports are "unique by name and by
    number", so a lookup returns the one port of that name or number; the
    blackhole cluster is a well-known cluster name. *)
Definition exampleAPI : ModelAPI := {|
  IsHTTP p := String.eqb p "HTTP" || String.eqb p "HTTP2" || String.eqb p "GRPC";
  PortList_Get ports name := firstThat (λ p, String.eqb (Port_Name p) name) ports;
  PortList_GetByPort ports num := firstThat (λ p, Port_Port p =? num) ports;
  BuildSubsetKey d subset host port :=
    directionString d +:+ "|" +:+ subset +:+ "|" +:+ host +:+ "|" +:+ Port_Name port;
  BlackHoleCluster := "BlackHoleCluster";
  Port_Match port sel :=
    match sel with
    | PortSelector_Name n => String.eqb n (Port_Name port)
    | PortSelector_Number k => k =? uint32 (Port_Port port)
    | PortSelector_unset => false
    end;
  GogoDurationToDuration d :=
    match d with
    | Some d => Seconds d * 1000000000 + Nanos d
    | None => 0
    end;
  Duration_String d := "";
|}.

(** The port a destination resolves to, in the spec's words: the port the
    destination pins, by name or by number, else the default port. *)
Definition selectedPort `{API : ModelAPI} (svc : Service) (destination : Destination)
    (defaultPort : Z) : option Port :=
  match Dest_Port destination with
  | Some (PortSelector_Name name) => PortList_Get (Service_Ports svc) name
  | Some (PortSelector_Number number) => PortList_GetByPort (Service_Ports svc) number
  | _ => PortList_GetByPort (Service_Ports svc) defaultPort
  end.

(** The port predicate of a match clause, in the spec's words: a pinned
    port must equal the target port. *)
Definition portMatchHTTP (m : HTTPMatchRequest) (port : Z) : bool :=
  (HM_Port m =? 0) || (HM_Port m =? uint32 port).

(** The rules [TranslateRoutes] visits, in the spec's words: the rules in
    declaration order up to and including the first one without a match
    clause. *)
Fixpoint rulesVisited (rules : list HTTPRoute) : list HTTPRoute :=
  match rules with
  | [] => []
  | http :: rest =>
      match HR_Match http with
      | [] => [http]
      | _ => http :: rulesVisited rest
      end
  end.

(** The routes of one rule, in the spec's words: one catch-all route for a
    rule without match clauses, else one route per match clause that passes,
    the others being skipped. *)
Definition routesOfRule `{API : ModelAPI} (http : HTTPRoute) (port : Z) (operation : string)
    (serviceIndex : gmap string Service) (proxyLabels : list (gmap string string))
    (gatewayNames : gmap string bool) : list Route :=
  match HR_Match http with
  | [] =>
      option_list (translateRoute http None port operation serviceIndex proxyLabels gatewayNames)
  | matches =>
      omap (λ m, translateRoute http (Some m) port operation serviceIndex
                   proxyLabels gatewayNames) matches
  end.

(** The match level of a listed config: that of its policy. *)
Definition specLevel `{API : ModelAPI} (hostname : Hostname) (port : Port)
    (spec : Config proto_Message) : Z :=
  match Spec spec with
  | MsgPolicy policy => policyMatchLevel (Meta spec) hostname port policy
  | _ => 0
  end.

(** A store that lists [specs] for every type and namespace. *)
Definition listingStore {S} (specs : list (Config S)) : ConfigStore S :=
  {| List_ := λ _ _, Some specs |}.

(** Emitted weights [outs] are in the proportions of the declared weights
    [ins]. *)
Definition sameProportions (ins outs : list Z) : Prop :=
  length ins = length outs
  ∧ ∀ i j wi wj oi oj,
      ins !! i = Some wi → ins !! j = Some wj →
      outs !! i = Some oi → outs !! j = Some oj → oi * wj = oj * wi.

(** The weights of the weighted-cluster set of a route, when its action
    carries one. *)
Definition emittedWeights (r : Route) : option (list Z) :=
  match Route_Action r with
  | Route_Route a =>
      match RA_ClusterSpecifier a with
      | RouteAction_WeightedClusters clusters => Some (map CW_Weight clusters)
      | RouteAction_Cluster _ => None
      end
  | Route_Redirect _ => None
  end.

(** A rule that only routes to the given weighted destinations. *)
Definition routeTo (route : list DestinationWeight) : HTTPRoute :=
  {| HR_Match := []; HR_Route := route; HR_Redirect := None; HR_Rewrite := None;
     HR_WebsocketUpgrade := false; HR_Timeout := None; HR_Retries := None;
     HR_Mirror := None; HR_CorsPolicy := None; HR_AppendHeaders := ∅ |}.

Definition destinationTo (host subset : string) (weight : Z) : DestinationWeight :=
  {| DW_Destination := {| Dest_Host := host; Dest_Subset := subset; Dest_Port := None |};
     DW_Weight := weight |}.

(** An authentication policy config of the given name and namespace. *)
Definition policyConfig (name namespace : string) (targets : list TargetSelector)
  : Config proto_Message :=
  {| Meta := mkConfigMeta AuthenticationPolicy_Type "authentication" "v1alpha1"
               name namespace "cluster.local" ∅ ∅ "";
     Spec := MsgPolicy {| Policy_Targets := targets |} |}.

(** The invariant of the loop of [AuthenticationPolicyByDestination] after
    the configs [seen]: [out] is the first of [seen] at the highest level
    [cur], or nothing matched yet. *)
Definition policyLoopInv `{API : ModelAPI} (hostname : Hostname) (port : Port)
    (seen : list (Config proto_Message)) (st : Config proto_Message * Z) : Prop :=
  (snd st = 0 ∧ ∀ c, c ∈ seen → specLevel hostname port c ≤ 0)
  ∨ (0 < snd st
     ∧ ∃ pre post, seen = pre ++ fst st :: post
         ∧ specLevel hostname port (fst st) = snd st
         ∧ (∀ c, c ∈ pre → specLevel hostname port c < snd st)
         ∧ (∀ c, c ∈ post → specLevel hostname port c ≤ snd st)).

(** The port and the number of routes of a guarded host. *)
Definition hostSummary (h : GuardedHost) : Z * nat := (GH_Port h, length (GH_Routes h)).

(** A virtual service config of the given name in namespace [default]. *)
Definition virtualServiceMeta (name : string) : ConfigMeta :=
  mkConfigMeta VirtualService_Type "networking" "v1alpha3" name "default" "cluster.local" ∅ ∅ "".

(** The service [reviews.example.com] with one HTTP port, and the virtual
    service that routes its host to subset [v1]. *)
Definition reviewsService : Service :=
  {| Service_Hostname := "reviews.example.com"; Service_Address := "10.0.0.1";
     Service_Ports := [mkPort "http" 9080 "HTTP"]; Service_MeshExternal := false |}.

Definition reviewsRoute : Config proto_Message :=
  {| Meta := virtualServiceMeta "reviews-route";
     Spec := MsgVirtualService
       {| VS_Hosts := ["reviews.example.com"]; VS_Gateways := [];
          VS_Http := [routeTo [destinationTo "reviews.example.com" "v1" 100]];
          VS_Tcp := [] |} |}.

(** A stored virtual service that uses short names, at address 0 of the
    heap, and the store that lists it. *)
Definition shortNamed : VirtualService :=
  {| VS_Hosts := ["reviews"]; VS_Gateways := [];
     VS_Http := [ {| HR_Match := []; HR_Route := [destinationTo "reviews" "v1" 100];
                     HR_Redirect := None; HR_Rewrite := None; HR_WebsocketUpgrade := false;
                     HR_Timeout := None; HR_Retries := None;
                     HR_Mirror := Some {| Dest_Host := "reviews-shadow"; Dest_Subset := "";
                                          Dest_Port := None |};
                     HR_CorsPolicy := None; HR_AppendHeaders := ∅ |} ];
     VS_Tcp := [] |}.

Definition shortNamedHeap : gmap nat proto_Message := {[ 0%nat := MsgVirtualService shortNamed ]}.

Definition shortNamedStore : ConfigStore ref :=
  listingStore [ {| Meta := virtualServiceMeta "reviews-route"; Spec := 0%nat |} ].

(** A request is an ACK for the connection, in the spec's words: a repeated
    CDS or LDS watch, or an RDS or EDS request with as many resource names
    as the non-empty set the connection watches. *)
Definition isAck {RouteConfiguration Listener Cluster Any ServiceInstance : Type}
    `{Env : @AdsEnv RouteConfiguration Listener Cluster Any ServiceInstance}
    (c : @XdsConnection RouteConfiguration Listener Cluster) (req : DiscoveryRequest) : Prop :=
  (TypeUrl req = ClusterType ∧ CDSWatch c = true)
  ∨ (TypeUrl req = ListenerType ∧ LDSWatch c = true)
  ∨ (TypeUrl req = RouteType ∧ Routes c ≠ []
     ∧ length (ResourceNames req) = length (Routes c))
  ∨ (TypeUrl req = EndpointType ∧ Clusters c ≠ []
     ∧ length (ResourceNames req) = length (Clusters c)).

(** Modelled from the spec: the four resource categories a [TypeUrl] names
    ("Cluster, Listener, Route, Endpoint"), whose constants are declared
    outside the sources.  The rest is an environment at which the handler is
    evaluated: a parser that accepts every node id, pushes that send one
    response each, and a stream that never fails.  Route configurations and
    marshalled resources are rendered as strings. *)
Definition exampleAdsEnv : @AdsEnv string unit unit string unit := {|
  ClusterType := "Cluster";
  ListenerType := "Listener";
  RouteType := "Route";
  EndpointType := "Endpoint";
  ParseServiceNode id := inl (mkProxy "sidecar" "10.0.0.1" id "cluster.local" ∅);
  ParseMetadata m := m;
  connectionID node := node +:+ "-1";
  pushCds node := emit (Sent (mkDiscoveryResponse
                    "Cluster" "v1" "n1" ["clusters"]));
  pushLds node := emit (Sent (mkDiscoveryResponse
                    "Listener" "v1" "n1" ["listeners"]));
  pushEds := emit (Sent (mkDiscoveryResponse
               "Endpoint" "v1" "n1" ["endpoints"]));
  GetProxyServiceInstances node := inl [];
  BuildSidecarOutboundHTTPRouteConfig node instances routeName := routeName;
  MarshalAny rc := rc;
  versionInfo := "v1";
  nonce := "n1";
  streamSend r := None;
|}.

(** A fresh connection, as the handler creates it, and a request. *)
Definition freshConnection : @XdsConnection string unit unit :=
  mkXdsConnection "10.0.0.1:1234" "" None [] ∅ [] [] [] false false false.

Definition freshState : @AdsState string unit unit string :=
  mkAdsState freshConnection [].

Definition requestFor (typeUrl : string) (names : list string) : DiscoveryRequest :=
  {| Node_Id := "sidecar-reviews-v1";
     Node_Metadata := ∅; TypeUrl := typeUrl; ResourceNames := names;
     VersionInfo := "v1"; ResponseNonce := "n1"; ErrorDetail := None |}.

(** The cluster names the action of a route refers to (none for a
    redirect), and the cluster its mirror policy names. *)
Definition routeClusters (r : Route) : list string :=
  match Route_Action r with
  | Route_Route a =>
      match RA_ClusterSpecifier a with
      | RouteAction_Cluster cluster => [cluster]
      | RouteAction_WeightedClusters clusters => map CW_Name clusters
      end
  | Route_Redirect _ => []
  end.

Definition routeMirror (r : Route) : option string :=
  match Route_Action r with
  | Route_Route a => RA_RequestMirrorPolicy a
  | Route_Redirect _ => None
  end.

(** The guarded host [translateVirtualHost] appends for one port, if any. *)
Definition portHost `{API : ModelAPI} (in_ : Config proto_Message)
    (serviceIndex : gmap string Service) (proxyLabels : list (gmap string string))
    (gatewayName : gmap string bool) (hosts : list string) (kv : Z * list Service)
  : option GuardedHost :=
  match TranslateRoutes in_ serviceIndex (fst kv) proxyLabels gatewayName with
  | inl routes =>
      if (length routes =? 0)%nat then None
      else Some {| GH_Port := fst kv; GH_Services := snd kv;
                   GH_Hosts := hosts; GH_Routes := routes |}
  | inr _ => None
  end.

(** The default host of a service at one of its ports. *)
Definition defaultHost `{API : ModelAPI} (svc : Service) (port : Port) : GuardedHost :=
  {| GH_Port := Port_Port port; GH_Services := [svc]; GH_Hosts := [];
     GH_Routes := [BuildDefaultHTTPRoute
                     (BuildSubsetKey TrafficDirectionOutbound "" (Service_Hostname svc) port)] |}.

(** Is [fqdn] the hostname of a service of one of the guarded hosts? *)
Definition coveredBy (hosts : list GuardedHost) (fqdn : string) : bool :=
  existsb (λ vh, existsb (λ s, String.eqb (Service_Hostname s) fqdn) (GH_Services vh)) hosts.

(** A second service, which no virtual service names. *)
Definition ratingsService : Service :=
  {| Service_Hostname := "ratings.example.com"; Service_Address := "10.0.0.2";
     Service_Ports := [mkPort "http" 8080 "HTTP"; mkPort "tcp" 9000 "TCP"];
     Service_MeshExternal := false |}.

(** A registered connection that watches two routes and holds a route
    configuration from an earlier subscription. *)
Definition exampleNode : Proxy := mkProxy "sidecar" "10.0.0.1" "reviews-v1" "cluster.local" ∅.

Definition watchingState : @AdsState string unit unit string :=
  mkAdsState
    (mkXdsConnection "10.0.0.1:1234" "c-1" (Some exampleNode) [] {[ "8080" := "stale" ]}
       [] [] ["80"; "9080"] false false true)
    [].

(** * Part II: theorems *)

(** *** Byte-wise comparison of strings *)

Lemma String_compare_refl (s : string) : String.compare s s = Eq.
Proof.
  induction s as [|c s IH]; simpl; [done|].
  unfold Ascii.compare. by rewrite N.compare_refl.
Qed.

Lemma String_compare_lt_trans (a b c : string) :
  String.compare a b = Lt → String.compare b c = Lt → String.compare a c = Lt.
Proof.
  revert b c. induction a as [|x a IH]; intros [|y b] [|z c]; simpl; try done.
  unfold Ascii.compare.
  destruct (N.compare_spec (N_of_ascii x) (N_of_ascii y)) as [Exy|Lxy|Gxy]; try done;
    destruct (N.compare_spec (N_of_ascii y) (N_of_ascii z)) as [Eyz|Lyz|Gyz]; try done;
    destruct (N.compare_spec (N_of_ascii x) (N_of_ascii z)) as [Exz|Lxz|Gxz];
    try done; try lia; eauto.
Qed.

Lemma String_ltb_lt (a b : string) : String.ltb a b = true ↔ String.compare a b = Lt.
Proof. unfold String.ltb. destruct (String.compare a b); split; congruence. Qed.

Lemma String_ltb_irrefl (a : string) : String.ltb a a = false.
Proof. unfold String.ltb. by rewrite String_compare_refl. Qed.

Lemma String_ltb_trans (a b c : string) :
  String.ltb a b = true → String.ltb b c = true → String.ltb a c = true.
Proof. rewrite !String_ltb_lt. apply String_compare_lt_trans. Qed.

Lemma String_ltb_total (a b : string) :
  String.ltb a b = false → String.ltb b a = false → a = b.
Proof.
  unfold String.ltb. rewrite (String.compare_antisym b a).
  destruct (String.compare a b) eqn:E; simpl; try done.
  intros _ _. by apply String.compare_eq_iff.
Qed.

(** *** [sort.Sort] with a strict total order *)

Section SortFacts.
Context {A : Type} (less : A → A → bool).
Hypothesis less_irrefl : ∀ a, less a a = false.
Hypothesis less_trans : ∀ a b c, less a b = true → less b c = true → less a c = true.
Hypothesis less_total : ∀ a b, less a b = false → less b a = false → a = b.

Lemma less_asym a b : less a b = true → less b a = false.
Proof.
  intros Hab. destruct (less b a) eqn:Hba; [|done].
  rewrite <- (less_irrefl a). symmetry. by eapply less_trans.
Qed.

#[local] Instance notAfter_total : Total (notAfter less).
Proof.
  intros a b. unfold notAfter.
  destruct (less b a) eqn:Hba; [right; by apply less_asym | by left].
Qed.

#[local] Instance notAfter_trans : Transitive (notAfter less).
Proof.
  intros a b c Hab Hbc. unfold notAfter in *.
  destruct (less c a) eqn:Hca; [|done].
  destruct (less a b) eqn:Hab'.
  - rewrite <- Hbc. symmetry. by eapply less_trans.
  - assert (a = b) as -> by (by apply less_total). congruence.
Qed.

#[local] Instance notAfter_antisym : AntiSymm (=) (notAfter less).
Proof. intros a b Hab Hba. by apply less_total. Qed.

Lemma sort_Sort_perm l : sort_Sort less l ≡ₚ l.
Proof. apply merge_sort_Permutation. Qed.

Lemma sort_Sort_sorted l : StronglySorted (notAfter less) (sort_Sort less l).
Proof. apply StronglySorted_merge_sort; apply _. Qed.

(** Whatever algorithm sorts [l], it ends with this slice. *)
Lemma sort_unique l l' :
  l' ≡ₚ l → StronglySorted (notAfter less) l' → l' = sort_Sort less l.
Proof.
  intros Hp Hs. apply (StronglySorted_unique (notAfter less)); [done| |].
  - apply sort_Sort_sorted.
  - by rewrite sort_Sort_perm.
Qed.

Lemma sort_Sort_reorder l1 l2 : l1 ≡ₚ l2 → sort_Sort less l1 = sort_Sort less l2.
Proof.
  intros Hp. apply sort_unique; [|apply sort_Sort_sorted].
  by rewrite sort_Sort_perm.
Qed.

Lemma sort_Sort_fixed l : StronglySorted (notAfter less) l → sort_Sort less l = l.
Proof. intros Hs. symmetry. by apply sort_unique. Qed.

Lemma firstThat_None (p : A → bool) l :
  firstThat p l = None ↔ ∀ h, h ∈ l → p h = false.
Proof.
  induction l as [|x l IH]; simpl.
  - split; [intros _ h Hh; by apply elem_of_nil in Hh | done].
  - destruct (p x) eqn:Hx.
    + split; [done|]. intros H. rewrite H in Hx; [done | left].
    + rewrite IH. split.
      * intros H h Hh. apply elem_of_cons in Hh as [->|Hh]; auto.
      * intros H h Hh. apply H. by right.
Qed.

Lemma firstThat_Some_sorted (p : A → bool) l h :
  StronglySorted (notAfter less) l → firstThat p l = Some h →
  h ∈ l ∧ p h = true ∧ ∀ h', h' ∈ l → p h' = true → h' = h ∨ less h h' = true.
Proof.
  intros Hs. induction Hs as [|x l Hs IH Hall]; simpl; [done|].
  destruct (p x) eqn:Hx.
  - intros [= <-]. split; [left|]. split; [done|].
    intros h' Hh' _. apply elem_of_cons in Hh' as [->|Hh']; [by left|].
    rewrite Forall_forall in Hall. specialize (Hall h' Hh').
    unfold notAfter in Hall.
    destruct (less x h') eqn:Hl; [by right|].
    left. symmetry. by apply less_total.
  - intros Hf. destruct (IH Hf) as (Hin & Hp & Hmin).
    split; [by right|]. split; [done|].
    intros h' Hh' Hp'. apply elem_of_cons in Hh' as [->|Hh']; [congruence|].
    by apply Hmin.
Qed.

End SortFacts.

(** *** The specificity order of hostnames *)

Lemma Hostnames_Less_spec (a b : Hostname) :
  Hostnames_Less a b = true ↔ moreSpecific a b.
Proof.
  unfold Hostnames_Less, moreSpecific.
  destruct (isWildcard a), (isWildcard b);
    destruct (Nat.eqb_spec (String.length a) (String.length b)) as [E|E];
    rewrite ?String_ltb_lt, ?Nat.ltb_lt; split; intros H;
    try tauto; try lia; try discriminate;
    intuition (try congruence; try lia).
Qed.

Lemma Hostnames_Less_irrefl (a : Hostname) : Hostnames_Less a a = false.
Proof.
  unfold Hostnames_Less. rewrite Nat.eqb_refl, String_ltb_irrefl.
  by destruct (isWildcard a).
Qed.

Lemma Hostnames_Less_trans (a b c : Hostname) :
  Hostnames_Less a b = true → Hostnames_Less b c = true → Hostnames_Less a c = true.
Proof.
  rewrite !Hostnames_Less_spec. unfold moreSpecific.
  intros [[? ?]|[[? ?]|(? & ? & ?)]] [[? ?]|[[? ?]|(? & ? & ?)]];
    try (left; split; congruence);
    try (right; left; split; [congruence | lia]).
  right; right. split; [congruence|]. split; [congruence|].
  by eapply String_compare_lt_trans.
Qed.

Lemma Hostnames_Less_total (a b : Hostname) :
  Hostnames_Less a b = false → Hostnames_Less b a = false → a = b.
Proof.
  unfold Hostnames_Less.
  rewrite (Nat.eqb_sym (String.length b) (String.length a)).
  destruct (isWildcard a), (isWildcard b); try done;
    destruct (Nat.eqb_spec (String.length a) (String.length b)) as [E|E];
    rewrite ?Nat.ltb_ge; try lia; apply String_ltb_total.
Qed.

(** Discharges the three order hypotheses of the sorting lemmas. *)
Ltac hostname_order :=
  first [ exact Hostnames_Less_irrefl | exact Hostnames_Less_trans
        | exact Hostnames_Less_total ].

Lemma sortHostnames_reorder (s1 s2 : list Hostname) :
  s1 ≡ₚ s2 → sort_Sort Hostnames_Less s1 = sort_Sort Hostnames_Less s2.
Proof.
  intros Hp. by apply sort_Sort_reorder; try hostname_order.
Qed.

Lemma sortHostnames_sorted (s : list Hostname) :
  StronglySorted (notAfter Hostnames_Less) (sort_Sort Hostnames_Less s).
Proof.
  apply sort_Sort_sorted; hostname_order.
Qed.

(** Standing before in sorted order is being equal or more specific. *)
Lemma notAfter_Hostnames (a b : Hostname) :
  notAfter Hostnames_Less a b ↔ a = b ∨ moreSpecific a b.
Proof.
  unfold notAfter. rewrite <- Hostnames_Less_spec. split.
  - intros Hba. destruct (Hostnames_Less a b) eqn:Hab; [by right|].
    left. by apply Hostnames_Less_total.
  - intros [->|Hab].
    + apply Hostnames_Less_irrefl.
    + by eapply less_asym; try hostname_order.
Qed.

Lemma StronglySorted_iff {A} (R1 R2 : A → A → Prop) (l : list A) :
  (∀ a b, R1 a b ↔ R2 a b) → StronglySorted R1 l ↔ StronglySorted R2 l.
Proof.
  intros HR. split; induction 1 as [|x l Hs IH Hall]; constructor; auto;
    eapply Forall_impl; eauto; intros; by apply HR.
Qed.

(** C2. For every needle and every two stacks that are reorderings of each
    other, [MostSpecificHostMatch] returns the same hostname and the same
    found flag.  When it finds one, the hostname is an element of the stack
    that matches the needle and every other matching element is less
    specific (a wildcard against a literal, else shorter, else greater in
    lexicographic order); when it finds none, no element matches and the
    empty hostname is returned. *)
Theorem MostSpecificHostMatch_reorder (needle : Hostname) (s1 s2 : list Hostname) :
  s1 ≡ₚ s2 →
  fst (MostSpecificHostMatch needle s1) = fst (MostSpecificHostMatch needle s2)
  ∧ match fst (MostSpecificHostMatch needle s1) with
    | (h, true) =>
        h ∈ s1 ∧ Hostname_Matches needle h = true
        ∧ ∀ h', h' ∈ s1 → Hostname_Matches needle h' = true → h' = h ∨ moreSpecific h h'
    | (h, false) =>
        h = "" ∧ ∀ h', h' ∈ s1 → Hostname_Matches needle h' = false
    end.
Proof.
  intros Hp. unfold MostSpecificHostMatch.
  rewrite <- (sortHostnames_reorder s1 s2 Hp).
  split; [done|].
  pose proof (sortHostnames_sorted s1) as Hs.
  assert (Hperm : sort_Sort Hostnames_Less s1 ≡ₚ s1) by apply merge_sort_Permutation.
  destruct (firstThat _ (sort_Sort Hostnames_Less s1)) as [h|] eqn:Hf; simpl.
  - eapply firstThat_Some_sorted in Hf as (Hin & Hm & Hmin);
      [|hostname_order|done].
    split; [by rewrite <- Hperm|]. split; [done|].
    intros h' Hh' Hm'. rewrite <- Hperm in Hh'.
    destruct (Hmin h' Hh' Hm') as [->|Hl]; [by left|].
    right. by apply Hostnames_Less_spec.
  - split; [done|]. intros h' Hh'. rewrite <- Hperm in Hh'.
    revert h' Hh'. by apply firstThat_None.
Qed.

Lemma MostSpecificHostMatch_reorder_witness :
  ["*.example.com"; "a.example.com"; "b.example.com"]
    ≡ₚ ["b.example.com"; "*.example.com"; "a.example.com"]
  ∧ fst (MostSpecificHostMatch "a.example.com"
           ["*.example.com"; "a.example.com"; "b.example.com"])
    = fst (MostSpecificHostMatch "a.example.com"
             ["b.example.com"; "*.example.com"; "a.example.com"]).
Proof.
  assert (Hp : ["*.example.com"; "a.example.com"; "b.example.com"]
                 ≡ₚ ["b.example.com"; "*.example.com"; "a.example.com"]).
  { etransitivity; [apply perm_skip, perm_swap | apply perm_swap]. }
  split; [exact Hp|].
  exact (proj1 (MostSpecificHostMatch_reorder "a.example.com" _ _ Hp)).
Defined.

(** C10. [MostSpecificHostMatch] leaves the caller's slice sorted by
    specificity: after the call the slice holds the same hostnames, each
    element equal to or more specific than those after it, and it is in the
    caller's order only when that order was the sorted one already. *)
Theorem MostSpecificHostMatch_sorts_in_place (needle : Hostname) (stack : list Hostname) :
  snd (MostSpecificHostMatch needle stack) ≡ₚ stack
  ∧ StronglySorted (λ a b, a = b ∨ moreSpecific a b)
      (snd (MostSpecificHostMatch needle stack))
  ∧ (snd (MostSpecificHostMatch needle stack) = stack
     ↔ StronglySorted (λ a b, a = b ∨ moreSpecific a b) stack).
Proof.
  assert (Hsnd : snd (MostSpecificHostMatch needle stack) = sort_Sort Hostnames_Less stack).
  { unfold MostSpecificHostMatch. by destruct (firstThat _ _). }
  rewrite Hsnd.
  pose proof (StronglySorted_iff _ _ (sort_Sort Hostnames_Less stack) notAfter_Hostnames) as Hiff.
  split; [apply merge_sort_Permutation|].
  split; [apply Hiff, sortHostnames_sorted|].
  split.
  - intros <-. apply Hiff, sortHostnames_sorted.
  - intros Hs. apply sort_Sort_fixed; try hostname_order.
    by apply (StronglySorted_iff _ _ stack notAfter_Hostnames).
Qed.

Example MostSpecificHostMatch_example :
  MostSpecificHostMatch "a.example.com" ["*.example.com"; "*"; "a.example.com"]
  = (("a.example.com", true), ["a.example.com"; "*.example.com"; "*"]).
Proof. vm_compute. reflexivity. Qed.

(** *** The source predicate *)

(** C5, as the claim states it, fails: a match that names gateways, none of
    them in the gateway-name set, does not pass although the proxy labels
    are a superset of its (empty) source labels. *)
Lemma sourceMatchHTTP_gateways_shadow_labels :
  ¬ (∀ (m : HTTPMatchRequest) (proxyLabels : list (gmap string string))
       (gatewayNames : gmap string bool),
       sourceMatchHTTP (Some m) proxyLabels gatewayNames = true
       ↔ ((∃ g, g ∈ HM_Gateways m ∧ lookupB gatewayNames g = true)
          ∨ IsSupersetOf proxyLabels (HM_SourceLabels m) = true)).
Proof.
  intros H.
  specialize (H (mkHTTPMatchRequest None None None None ∅ 0 ∅ ["gateway-a"]) [∅] ∅).
  destruct H as [_ H].
  assert (Hf : sourceMatchHTTP
                 (Some (mkHTTPMatchRequest None None None None ∅ 0 ∅ ["gateway-a"])) [∅] ∅
               = false) by (vm_compute; reflexivity).
  rewrite Hf in H. discriminate H. right. vm_compute. reflexivity.
Qed.

(** C5, amended. An absent match condition passes.  A match condition that
    names gateways passes iff one of them is in the gateway-name set; one
    that names no gateway passes iff the proxy labels are a superset of its
    source labels. *)
Theorem sourceMatchHTTP_spec (proxyLabels : list (gmap string string))
    (gatewayNames : gmap string bool) :
  sourceMatchHTTP None proxyLabels gatewayNames = true
  ∧ ∀ m : HTTPMatchRequest,
      sourceMatchHTTP (Some m) proxyLabels gatewayNames = true
      ↔ ((HM_Gateways m ≠ [] ∧ ∃ g, g ∈ HM_Gateways m ∧ lookupB gatewayNames g = true)
         ∨ (HM_Gateways m = [] ∧ IsSupersetOf proxyLabels (HM_SourceLabels m) = true)).
Proof.
  split; [done|]. intros m. unfold sourceMatchHTTP.
  destruct (HM_Gateways m) as [|g gs] eqn:Hg; simpl.
  - split; [by right | by intros [[? _]|[_ ?]]].
  - rewrite orb_true_iff, existsb_exists. split.
    + intros [Hl|(g' & Hin & Hl)]; left; (split; [done|]).
      * exists g. split; [left | done].
      * exists g'. split; [right; by apply list_elem_of_In | done].
    + intros [[_ (g' & Hin & Hl)]|[? _]]; [|done].
      apply elem_of_cons in Hin as [->|Hin]; [by left|].
      right. exists g'. split; [by apply list_elem_of_In | done].
Qed.

(** *** Destination to cluster *)

(** C6. [ConvertDestinationToCluster] returns the blackhole cluster when the
    destination host is not in the service index; otherwise it takes the
    port the destination pins (by name or by number), else the default
    port, returns the blackhole cluster when the service has no such port,
    and else the subset key of the outbound direction, the destination's
    subset, the service's hostname and that port. *)
Theorem ConvertDestinationToCluster_resolution `{API : ModelAPI}
    (destination : Destination) (vsvcName : string)
    (serviceIndex : gmap string Service) (defaultPort : Z) :
  match serviceIndex !! Dest_Host destination with
  | None =>
      ConvertDestinationToCluster destination vsvcName serviceIndex defaultPort
      = BlackHoleCluster
  | Some svc =>
      match selectedPort svc destination defaultPort with
      | None =>
          ConvertDestinationToCluster destination vsvcName serviceIndex defaultPort
          = BlackHoleCluster
      | Some port =>
          ConvertDestinationToCluster destination vsvcName serviceIndex defaultPort
          = BuildSubsetKey TrafficDirectionOutbound (Dest_Subset destination)
              (Service_Hostname svc) port
      end
  end.
Proof.
  unfold ConvertDestinationToCluster, selectedPort.
  destruct (serviceIndex !! Dest_Host destination) as [svc|]; [|done].
  destruct (Dest_Port destination) as [[name|number|]|]; simpl;
    by match goal with |- match ?p with _ => _ end => destruct p end.
Qed.

(** The four outcomes on the service [reviews.example.com]. *)
Example ConvertDestinationToCluster_missing_host :
  ConvertDestinationToCluster (API := exampleAPI)
    (mkDestination "ratings.example.com" "v1" None) "rule"
    {[ "reviews.example.com" := reviewsService ]} 9080
  = "BlackHoleCluster".
Proof. vm_compute. reflexivity. Qed.

Example ConvertDestinationToCluster_default_port :
  ConvertDestinationToCluster (API := exampleAPI)
    (mkDestination "reviews.example.com" "v1" None) "rule"
    {[ "reviews.example.com" := reviewsService ]} 9080
  = "outbound|v1|reviews.example.com|http".
Proof. vm_compute. reflexivity. Qed.

Example ConvertDestinationToCluster_pinned_by_name :
  ConvertDestinationToCluster (API := exampleAPI)
    (mkDestination "reviews.example.com" "v2" (Some (PortSelector_Name "http"))) "rule"
    {[ "reviews.example.com" := reviewsService ]} 80
  = "outbound|v2|reviews.example.com|http".
Proof. vm_compute. reflexivity. Qed.

Example ConvertDestinationToCluster_unknown_port :
  ConvertDestinationToCluster (API := exampleAPI)
    (mkDestination "reviews.example.com" "v2" (Some (PortSelector_Number 8080))) "rule"
    {[ "reviews.example.com" := reviewsService ]} 9080
  = "BlackHoleCluster".
Proof. vm_compute. reflexivity. Qed.

(** *** Weights *)

Lemma foldl_snoc_map {A B} (f : A → B) (l : list A) (init : list B) :
  foldl (λ acc x, acc ++ [f x]) init l = init ++ map f l.
Proof.
  revert init. induction l as [|x l IH]; intros init; simpl.
  - by rewrite app_nil_r.
  - rewrite IH. by rewrite <- app_assoc.
Qed.

Section Weights.
Context `{API : ModelAPI}.

(** The entry [translateRoute] builds for one destination. *)
Lemma weightedClusters_map (route : list DestinationWeight) (operation : string)
    (serviceIndex : gmap string Service) (port : Z) :
  weightedClusters route operation serviceIndex port
  = map (λ dst,
      {| CW_Name := ConvertDestinationToCluster (DW_Destination dst) operation serviceIndex port;
         CW_Weight := if DW_Weight dst =? 0 then 100 else uint32 (DW_Weight dst) |}) route.
Proof. unfold weightedClusters. by rewrite foldl_snoc_map. Qed.

Lemma uint32_small (z : Z) : 0 ≤ z < 2^32 → uint32 z = z.
Proof. intros. unfold uint32. by apply Z.mod_small. Qed.

Lemma translateRoute_action (in_ : HTTPRoute) (match_ : option HTTPMatchRequest) (port : Z)
    (operation : string) (serviceIndex : gmap string Service)
    (proxyLabels : list (gmap string string)) (gatewayNames : gmap string bool) (r : Route) :
  translateRoute in_ match_ port operation serviceIndex proxyLabels gatewayNames = Some r →
  HR_Redirect in_ = None →
  ∃ a, Route_Action r = Route_Route a
       ∧ RA_ClusterSpecifier a
         = clusterSpecifier (weightedClusters (HR_Route in_) operation serviceIndex port).
Proof.
  unfold translateRoute. intros Hr Hred. rewrite Hred in Hr.
  destruct (negb (sourceMatchHTTP _ _ _)); [done|].
  destruct (match match_ with Some _ => _ | None => _ end); [done|].
  injection Hr as <-. eexists. split; reflexivity.
Qed.

End Weights.

(** C4, as the claim states it, fails: with the two destinations of weights
    0 and 100 the emitted set has the weights 100 and 100, which are not in
    the proportions 0 to 100. *)
Lemma translateRoute_zero_weight_in_set :
  (translateRoute (API := exampleAPI)
     (routeTo [destinationTo "a.example.com" "v1" 0; destinationTo "a.example.com" "v2" 100])
     None 80 "rule" ∅ [] ∅ ≫= emittedWeights) = Some [100; 100]
  ∧ ¬ sameProportions [0; 100] [100; 100].
Proof.
  split; [vm_compute; reflexivity|].
  intros [_ H]. specialize (H 0%nat 1%nat 0 100 100 100).
  simpl in H. specialize (H eq_refl eq_refl eq_refl eq_refl). lia.
Qed.

(** C4, amended. For a rule that does not redirect: a single destination
    gets the entry of its cluster with weight 100 when its weight is 0 (its
    own weight otherwise), and the action refers to that cluster directly;
    with two or more destinations the action carries a weighted-cluster set
    with the destinations' clusters in order, and when every weight is
    positive the set carries the destinations' weights unchanged, hence in
    the same proportions. *)
Theorem translateRoute_weights `{API : ModelAPI}
    (in_ : HTTPRoute) (match_ : option HTTPMatchRequest) (port : Z)
    (operation : string) (serviceIndex : gmap string Service)
    (proxyLabels : list (gmap string string)) (gatewayNames : gmap string bool) (r : Route) :
  translateRoute in_ match_ port operation serviceIndex proxyLabels gatewayNames = Some r →
  HR_Redirect in_ = None →
  ∃ a, Route_Action r = Route_Route a ∧
    match HR_Route in_ with
    | [] => RA_ClusterSpecifier a = RouteAction_WeightedClusters []
    | [dst] =>
        weightedClusters [dst] operation serviceIndex port
        = [ {| CW_Name :=
                 ConvertDestinationToCluster (DW_Destination dst) operation serviceIndex port;
               CW_Weight := if DW_Weight dst =? 0 then 100 else uint32 (DW_Weight dst) |} ]
        ∧ RA_ClusterSpecifier a
          = RouteAction_Cluster
              (ConvertDestinationToCluster (DW_Destination dst) operation serviceIndex port)
    | route =>
        ∃ clusters,
          RA_ClusterSpecifier a = RouteAction_WeightedClusters clusters
          ∧ map CW_Name clusters
            = map (λ dst, ConvertDestinationToCluster (DW_Destination dst) operation
                            serviceIndex port) route
          ∧ (Forall (λ dst, 0 < DW_Weight dst < 2^31) route →
             map CW_Weight clusters = map DW_Weight route
             ∧ sameProportions (map DW_Weight route) (map CW_Weight clusters))
    end.
Proof.
  intros Hr Hred.
  destruct (translateRoute_action _ _ _ _ _ _ _ _ Hr Hred) as (a & Ha & Hspec).
  exists a. split; [done|]. rewrite Hspec, weightedClusters_map.
  destruct (HR_Route in_) as [|d1 [|d2 rest]] eqn:Hroute; [done| |].
  - split; [|done]. by rewrite weightedClusters_map.
  - eexists. split; [reflexivity|]. split.
    + rewrite map_map. done.
    + intros Hall.
      assert (Hw : map CW_Weight
                (map (λ dst, {| CW_Name := ConvertDestinationToCluster (DW_Destination dst)
                                             operation serviceIndex port;
                                CW_Weight := if DW_Weight dst =? 0 then 100
                                             else uint32 (DW_Weight dst) |})
                     (d1 :: d2 :: rest))
              = map DW_Weight (d1 :: d2 :: rest)).
      { rewrite map_map. apply map_ext_Forall.
        eapply Forall_impl; [exact Hall|]. intros dst Hd. simpl in *.
        destruct (Z.eqb_spec (DW_Weight dst) 0); [lia|].
        apply uint32_small. lia. }
      split; [exact Hw|]. rewrite Hw. split; [done|].
      intros i j wi wj oi oj Hi Hj Hi' Hj'. rewrite Hi in Hi'. rewrite Hj in Hj'.
      injection Hi' as <-. injection Hj' as <-. lia.
Qed.

Lemma translateRoute_weights_witness :
  ∃ r, translateRoute (API := exampleAPI)
         (routeTo [destinationTo "c.example.com" "v1" 75; destinationTo "c.example.com" "v2" 25])
         None 80 "rule" ∅ [] ∅ = Some r
       ∧ emittedWeights r = Some [75; 25].
Proof.
  eexists. split; [vm_compute; reflexivity|].
  match goal with |- emittedWeights ?r = _ =>
    destruct (translateRoute_weights (API := exampleAPI)
      (routeTo [destinationTo "c.example.com" "v1" 75; destinationTo "c.example.com" "v2" 25])
      None 80 "rule" ∅ [] ∅ r) as (a & Ha & clusters & Hc & _ & Hw);
      [vm_compute; reflexivity | reflexivity |]
  end.
  destruct Hw as [Hw _].
  { repeat constructor; simpl; lia. }
  unfold emittedWeights. rewrite Ha, Hc. by rewrite Hw.
Defined.

(** *** [TranslateRoutes] *)

Lemma rulesVisited_catch_all (pre : list HTTPRoute) (http : HTTPRoute) (post : list HTTPRoute) :
  Forall (λ h, HR_Match h ≠ []) pre → HR_Match http = [] →
  rulesVisited (pre ++ http :: post) = pre ++ [http].
Proof.
  intros Hpre Hhttp. induction Hpre as [|h pre Hh Hpre IH]; simpl.
  - by rewrite Hhttp.
  - destruct (HR_Match h); [done|]. by rewrite IH.
Qed.

Lemma rulesVisited_all_matching (rules : list HTTPRoute) :
  Forall (λ h, HR_Match h ≠ []) rules → rulesVisited rules = rules.
Proof.
  induction 1 as [|h rules Hh Hrules IH]; simpl; [done|].
  destruct (HR_Match h); [done|]. by rewrite IH.
Qed.

Section TranslateRoutesFacts.
Context `{API : ModelAPI}.
Context (port : Z) (operation : string) (serviceIndex : gmap string Service)
  (proxyLabels : list (gmap string string)) (gatewayNames : gmap string bool).

Lemma foldl_appendRoute (http : HTTPRoute) (matches : list HTTPMatchRequest) (out : list Route) :
  foldl (λ out match_,
           appendRoute out
             (translateRoute http (Some match_) port operation serviceIndex
                proxyLabels gatewayNames)) out matches
  = out ++ omap (λ m, translateRoute http (Some m) port operation serviceIndex
                        proxyLabels gatewayNames) matches.
Proof.
  revert out. induction matches as [|m matches IH]; intros out; simpl.
  - by rewrite app_nil_r.
  - rewrite IH. destruct (translateRoute http (Some m) _ _ _ _ _); simpl; [|done].
    by rewrite <- app_assoc.
Qed.

Lemma translateRules_spec (rules : list HTTPRoute) (out : list Route) :
  translateRules rules port operation serviceIndex proxyLabels gatewayNames out
  = out ++ flat_map (λ http, routesOfRule http port operation serviceIndex
                               proxyLabels gatewayNames) (rulesVisited rules).
Proof.
  revert out. induction rules as [|http rules IH]; intros out.
  - simpl. by rewrite app_nil_r.
  - cbn [translateRules rulesVisited].
    destruct (HR_Match http) as [|m ms] eqn:Hm.
    + cbn [length Nat.eqb flat_map]. unfold routesOfRule. rewrite Hm, app_nil_r.
      destruct (translateRoute http None port operation serviceIndex proxyLabels
                  gatewayNames); simpl; by rewrite ?app_nil_r.
    + cbn [length Nat.eqb flat_map]. rewrite IH, foldl_appendRoute.
      unfold routesOfRule at 2. rewrite Hm. by rewrite app_assoc.
Qed.

Lemma translateRoute_catch_all (http : HTTPRoute) :
  ∃ r, translateRoute http None port operation serviceIndex proxyLabels gatewayNames = Some r
       ∧ Route_Match r = mkRouteMatch (RouteMatch_Prefix "/") [].
Proof. unfold translateRoute. simpl. eexists. split; reflexivity. Qed.

Lemma translateRoute_passes (http : HTTPRoute) (m : HTTPMatchRequest) :
  is_Some (translateRoute http (Some m) port operation serviceIndex proxyLabels gatewayNames)
  ↔ sourceMatchHTTP (Some m) proxyLabels gatewayNames = true ∧ portMatchHTTP m port = true.
Proof.
  unfold translateRoute, portMatchHTTP.
  destruct (sourceMatchHTTP (Some m) proxyLabels gatewayNames); simpl.
  - destruct (HM_Port m =? 0), (HM_Port m =? uint32 port); simpl;
      split; try (intros [? ?]; done); try (intros [? [=]]); intros; eauto.
  - split; [intros [? [=]] | intros [[=] _]].
Qed.

End TranslateRoutesFacts.

(** C8. [TranslateRoutes] visits the HTTP rules in declaration order up to
    and including the first rule without match clauses, after which no rule
    contributes; a rule without match clauses yields exactly one route, which
    matches the prefix [/] without header conditions; a rule with match
    clauses yields one route for each clause whose source and port
    predicates pass, in order, and nothing for the others; and the result is
    the error "no routes matched" exactly when no route is produced. *)
Theorem TranslateRoutes_spec `{API : ModelAPI}
    (virtualService : Config proto_Message) (serviceIndex : gmap string Service) (port : Z)
    (proxyLabels : list (gmap string string)) (gatewayNames : gmap string bool) :
  (∀ http operation,
     HR_Match http = [] →
     ∃ r, routesOfRule http port operation serviceIndex proxyLabels gatewayNames = [r]
          ∧ Route_Match r = mkRouteMatch (RouteMatch_Prefix "/") [])
  ∧ (∀ http m operation,
       is_Some (translateRoute http (Some m) port operation serviceIndex
                  proxyLabels gatewayNames)
       ↔ sourceMatchHTTP (Some m) proxyLabels gatewayNames = true
         ∧ portMatchHTTP m port = true)
  ∧ (∀ pre http post,
       Forall (λ h, HR_Match h ≠ []) pre → HR_Match http = [] →
       rulesVisited (pre ++ http :: post) = pre ++ [http])
  ∧ TranslateRoutes virtualService serviceIndex port proxyLabels gatewayNames
    = match Spec virtualService with
      | MsgVirtualService rule =>
          match flat_map (λ http, routesOfRule http port (Name (Meta virtualService))
                                    serviceIndex proxyLabels gatewayNames)
                         (rulesVisited (VS_Http rule)) with
          | [] => inr NoRoutesMatched
          | out => inl out
          end
      | _ => inr NotAVirtualService
      end.
Proof.
  split.
  { intros http operation Hm.
    destruct (translateRoute_catch_all port operation serviceIndex proxyLabels
                gatewayNames http) as (r & Hr & Hmatch).
    exists r. split; [|done]. unfold routesOfRule. by rewrite Hm, Hr. }
  split; [intros; apply translateRoute_passes|].
  split; [apply rulesVisited_catch_all|].
  unfold TranslateRoutes. destruct (Spec virtualService); try done.
  rewrite translateRules_spec. simpl. by destruct (flat_map _ _).
Qed.

(** Three rules: the first with two match clauses, one of them for a
    gateway the proxy is not bound to; the second without match clauses;
    the third is never visited.  Two routes come out. *)
Example TranslateRoutes_example :
  match TranslateRoutes (API := exampleAPI)
          {| Meta := virtualServiceMeta "reviews-route";
             Spec := MsgVirtualService
               {| VS_Hosts := ["reviews.example.com"]; VS_Gateways := [];
                  VS_Http :=
                    [ {| HR_Match :=
                           [ mkHTTPMatchRequest (Some (StringMatch_Exact "/a")) None None None
                               ∅ 0 ∅ [];
                             mkHTTPMatchRequest (Some (StringMatch_Exact "/b")) None None None
                               ∅ 0 ∅ ["other-gateway"] ];
                         HR_Route := [destinationTo "reviews.example.com" "v2" 100];
                         HR_Redirect := None; HR_Rewrite := None;
                         HR_WebsocketUpgrade := false; HR_Timeout := None;
                         HR_Retries := None; HR_Mirror := None; HR_CorsPolicy := None;
                         HR_AppendHeaders := ∅ |};
                      routeTo [destinationTo "reviews.example.com" "v1" 100];
                      routeTo [destinationTo "reviews.example.com" "v3" 100] ];
                  VS_Tcp := [] |} |}
          {[ "reviews.example.com" := reviewsService ]} 9080 [∅] {[ "mesh" := true ]}
  with
  | inl routes => Some (map (λ r, RM_PathSpecifier (Route_Match r)) routes)
  | inr _ => None
  end
  = Some [RouteMatch_Path "/a"; RouteMatch_Prefix "/"].
Proof. vm_compute. reflexivity. Qed.

(** *** [AuthenticationPolicyByDestination] *)

Section PolicyFacts.
Context `{API : ModelAPI}.
Context (hostname : Hostname) (port : Port).

Lemma targetsMatchLevel_values (meta : ConfigMeta) (targets : list TargetSelector) :
  targetsMatchLevel meta hostname port targets = 0
  ∨ targetsMatchLevel meta hostname port targets = 3.
Proof.
  induction targets as [|dest rest IH]; simpl; [by left|].
  destruct (negb _); [done|]. destruct (_ && _); [done | by right].
Qed.

(** The levels are 0 (no match), 2 (namespace) and 3 (workload). *)
Lemma specLevel_values (spec : Config proto_Message) :
  specLevel hostname port spec = 0 ∨ specLevel hostname port spec = 2
  ∨ specLevel hostname port spec = 3.
Proof.
  unfold specLevel. destruct (Spec spec); try by left.
  unfold policyMatchLevel. destruct (_ <? _)%nat; [|by right; left].
  destruct (targetsMatchLevel_values (Meta spec) (Policy_Targets p)) as [->| ->]; auto.
Qed.

Lemma policyStep_inv (seen : list (Config proto_Message)) (st : Config proto_Message * Z)
    (spec : Config proto_Message) :
  policyLoopInv hostname port seen st → (∃ p, Spec spec = MsgPolicy p) →
  ∃ st', policyStep hostname port st spec = Returns st'
         ∧ policyLoopInv hostname port (seen ++ [spec]) st'.
Proof.
  intros Hinv [p Hp]. unfold policyStep. rewrite Hp. simpl.
  assert (Hl : policyMatchLevel (Meta spec) hostname port p = specLevel hostname port spec).
  { unfold specLevel. by rewrite Hp. }
  rewrite Hl. eexists. split; [reflexivity|].
  destruct (Z.ltb_spec (snd st) (specLevel hostname port spec)) as [Hlt|Hge].
  - right. simpl. split.
    { destruct Hinv as [[? _]|[? _]]; lia. }
    exists seen, []. split; [done|]. split; [done|]. split.
    + intros c Hc. destruct Hinv as [[H0 Hall]|[Hpos (pre & post & -> & Hout & Hpre & Hpost)]].
      * specialize (Hall c Hc). lia.
      * apply elem_of_app in Hc as [Hc|Hc]; [specialize (Hpre c Hc); lia|].
        apply elem_of_cons in Hc as [->|Hc]; [lia | specialize (Hpost c Hc); lia].
    + intros c Hc. by apply elem_of_nil in Hc.
  - destruct Hinv as [[H0 Hall]|[Hpos (pre & post & -> & Hout & Hpre & Hpost)]].
    + left. split; [done|]. intros c Hc.
      apply elem_of_app in Hc as [Hc|Hc]; [by apply Hall|].
      apply list_elem_of_singleton in Hc as ->. lia.
    + right. split; [done|]. exists pre, (post ++ [spec]).
      split; [by rewrite <- app_assoc|]. split; [done|]. split; [done|].
      intros c Hc. apply elem_of_app in Hc as [Hc|Hc]; [by apply Hpost|].
      apply list_elem_of_singleton in Hc as ->. lia.
Qed.

Lemma policyLoop_inv (specs seen : list (Config proto_Message)) (st : Config proto_Message * Z) :
  policyLoopInv hostname port seen st →
  Forall (λ c, ∃ p, Spec c = MsgPolicy p) specs →
  ∃ st', forEach (policyStep hostname port) specs st = Returns st'
         ∧ policyLoopInv hostname port (seen ++ specs) st'.
Proof.
  intros Hinv Hall. revert seen st Hinv.
  induction Hall as [|spec specs Hspec Hall IH]; intros seen st Hinv; simpl.
  - exists st. by rewrite app_nil_r.
  - destruct (policyStep_inv seen st spec Hinv Hspec) as (st1 & -> & Hinv1). simpl.
    destruct (IH _ _ Hinv1) as (st' & Hrun & Hinv').
    exists st'. split; [done|]. by rewrite <- app_assoc in Hinv'.
Qed.

End PolicyFacts.

(** C7, as the claim states it, fails: two namespace-scoped policies match
    the destination at the same tier, and the one returned is the one the
    store lists first, whatever their keys: listed as b, a the result is b;
    listed as a, b the result is a. *)
Lemma AuthenticationPolicyByDestination_tie_by_listing_order :
  AuthenticationPolicyByDestination (API := exampleAPI)
    (listingStore [policyConfig "b" "default" []; policyConfig "a" "default" []])
    "reviews.default.svc.cluster.local" (mkPort "http" 9080 "HTTP")
  = Returns (Some (policyConfig "b" "default" []))
  ∧ AuthenticationPolicyByDestination (API := exampleAPI)
      (listingStore [policyConfig "a" "default" []; policyConfig "b" "default" []])
      "reviews.default.svc.cluster.local" (mkPort "http" 9080 "HTTP")
    = Returns (Some (policyConfig "a" "default" []))
  ∧ ConfigMeta_Key (Meta (policyConfig "a" "default" [])) = "policy/default/a"
  ∧ ConfigMeta_Key (Meta (policyConfig "b" "default" [])) = "policy/default/b".
Proof. repeat split; vm_compute; reflexivity. Qed.

(** C7, amended. For a hostname with at least two dot-separated labels, a
    store that lists the policies of the hostname's namespace (its second
    label) without error, all of them authentication policies, the function
    returns: no policy when none matches; otherwise the first policy, in the
    store's listing order, among those at the highest matching tier
    (workload, level 3, above namespace, level 2; there is no global tier).
    Ties are resolved by listing order. *)
Theorem AuthenticationPolicyByDestination_first_of_highest_tier `{API : ModelAPI}
    (store : ConfigStore proto_Message) (hostname : Hostname) (port : Port)
    (name namespace : string) (labels : list string) (specs : list (Config proto_Message)) :
  GoStrings.SplitByte "."%char hostname = name :: namespace :: labels →
  List_ store AuthenticationPolicy_Type namespace = Some specs →
  Forall (λ c, ∃ p, Spec c = MsgPolicy p) specs →
  ∃ result,
    AuthenticationPolicyByDestination store hostname port = Returns result
    ∧ match result with
      | None => ∀ c, c ∈ specs → specLevel hostname port c = 0
      | Some c =>
          ∃ pre post, specs = pre ++ c :: post
            ∧ (specLevel hostname port c = 2 ∨ specLevel hostname port c = 3)
            ∧ (∀ c', c' ∈ pre → specLevel hostname port c' < specLevel hostname port c)
            ∧ (∀ c', c' ∈ post → specLevel hostname port c' ≤ specLevel hostname port c)
      end.
Proof.
  intros Hsplit Hlist Hall. unfold AuthenticationPolicyByDestination.
  rewrite Hsplit. simpl. rewrite Hlist.
  destruct (policyLoop_inv hostname port specs [] (zeroConfig, 0)) as (st & -> & Hinv);
    [left; split; [done|]; intros c Hc; by apply elem_of_nil in Hc | done |].
  simpl in *. eexists. split; [reflexivity|].
  destruct Hinv as [[-> Hle]|[Hpos (pre & post & Hspecs & Hout & Hpre & Hpost)]]; simpl.
  - intros c Hc. specialize (Hle c Hc).
    destruct (specLevel_values hostname port c) as [?|[?|?]]; lia.
  - destruct (Z.eqb_spec (snd st) 0); [lia|].
    exists pre, post. rewrite Hout. split; [done|]. split; [|done].
    destruct (specLevel_values hostname port (fst st)) as [?|[?|?]]; [lia|left|right]; lia.
Qed.

Lemma AuthenticationPolicyByDestination_first_of_highest_tier_witness :
  ∃ result,
    AuthenticationPolicyByDestination (API := exampleAPI)
      (listingStore [policyConfig "ns-wide" "default" [];
                     policyConfig "reviews-only" "default" [mkTargetSelector "reviews" []];
                     policyConfig "reviews-again" "default" [mkTargetSelector "reviews" []]])
      "reviews.default.svc.cluster.local" (mkPort "http" 9080 "HTTP")
    = Returns result
    ∧ result = Some (policyConfig "reviews-only" "default" [mkTargetSelector "reviews" []]).
Proof.
  destruct (AuthenticationPolicyByDestination_first_of_highest_tier (API := exampleAPI)
    (listingStore [policyConfig "ns-wide" "default" [];
                   policyConfig "reviews-only" "default" [mkTargetSelector "reviews" []];
                   policyConfig "reviews-again" "default" [mkTargetSelector "reviews" []]])
    "reviews.default.svc.cluster.local" (mkPort "http" 9080 "HTTP")
    "reviews" "default" ["svc"; "cluster"; "local"] _
    eq_refl eq_refl) as (result & Hres & _).
  { repeat constructor; eexists; reflexivity. }
  exists result. split; [exact Hres|].
  vm_compute in Hres. by injection Hres as <-.
Defined.

(** *** Virtual hosts *)

Section VirtualHostFacts.
Context `{API : ModelAPI}.

Lemma foldl_keeps_head {A B} (f : list A → B → list A) (x : A) (l : list B) (out : list A) :
  (∀ out b, ∃ tail, f out b = out ++ tail) →
  ∃ rest, foldl f (x :: out) l = x :: rest.
Proof.
  intros Hf. revert out. induction l as [|b l IH]; intros out; simpl; [by eexists|].
  destruct (Hf (x :: out) b) as [tail ->]. apply IH.
Qed.

(** Whatever the virtual service, the slice [translateVirtualHost] returns
    starts with a zero-valued guarded host: port 0 and no routes. *)
Lemma translateVirtualHost_zero_prefix (in_ : Config proto_Message) (rule : VirtualService)
    (serviceIndex : gmap string Service) (proxyLabels : list (gmap string string))
    (gatewayName : gmap string bool) :
  Spec in_ = MsgVirtualService rule →
  ∃ rest, translateVirtualHost in_ serviceIndex proxyLabels gatewayName
          = Returns (zeroGuardedHost :: rest).
Proof.
  intros Hspec. unfold translateVirtualHost, matchServiceHosts. rewrite Hspec. simpl.
  set (hs := foldl _ ([], []) (VS_Hosts rule)).
  set (m := if (size (groupByPort hs.2) =? 0)%nat then _ else _).
  assert (Hsize : ∃ n, size m = S n).
  { subst m. destruct (Nat.eqb_spec (size (groupByPort hs.2)) 0) as [E|E].
    - apply map_size_empty_inv in E. rewrite E. exists 0%nat.
      by rewrite insert_empty, map_size_singleton.
    - destruct (size (groupByPort hs.2)); [done | by eexists]. }
  destruct Hsize as [n ->]. simpl.
  destruct (foldl_keeps_head
    (λ out kv,
       match TranslateRoutes in_ serviceIndex kv.1 proxyLabels gatewayName with
       | inl routes =>
           if (length routes =? 0)%nat then out
           else out ++ [ {| GH_Port := kv.1; GH_Services := kv.2;
                            GH_Hosts := hs.1; GH_Routes := routes |} ]
       | inr _ => out
       end)
    zeroGuardedHost (map_to_list m) (replicate n zeroGuardedHost)) as [rest Hrest].
  { intros out kv. destruct (TranslateRoutes _ _ _ _ _) as [routes|];
      [destruct (length routes =? 0)%nat|]; try (exists []; by rewrite app_nil_r).
    by eexists. }
  exists rest. by rewrite <- Hrest.
Qed.

End VirtualHostFacts.

(** C1, evaluated. With the service [reviews.example.com] (HTTP port 9080)
    in the index and one virtual service routing its host, the compiler
    returns two guarded hosts: a zero-valued one (port 0, no routes) and
    then the host at port 9080 with its one route. *)
Theorem TranslateVirtualHosts_emits_zero_host :
  ∃ hosts,
    TranslateVirtualHosts (API := exampleAPI) [reviewsRoute]
      {[ "reviews.example.com" := reviewsService ]} [] ∅ = Returns hosts
    ∧ map hostSummary hosts = [(0, 0%nat); (9080, 1%nat)]
    ∧ hosts !! 0%nat = Some zeroGuardedHost.
Proof. eexists. split; [vm_compute; reflexivity|]. split; reflexivity. Qed.

(** *** [VirtualServices] and the stored configs *)

(** C9, evaluated. The store holds a virtual service written with short
    names and hands out a pointer to it.  After [VirtualServices] for the
    mesh gateway the stored message itself has the resolved names: its
    hosts, its route destination and its mirror destination differ from
    what the store held before the call. *)
Theorem VirtualServices_rewrites_stored_spec :
  ∃ out heap' stored,
    VirtualServices shortNamedStore shortNamedHeap {[ IstioMeshGateway := true ]}
    = Returns (Some out, heap')
    ∧ shortNamedHeap !! 0%nat = Some (MsgVirtualService shortNamed)
    ∧ heap' !! 0%nat = Some (MsgVirtualService stored)
    ∧ VS_Hosts shortNamed = ["reviews"]
    ∧ VS_Hosts stored = ["reviews.default.svc.cluster.local"]
    ∧ map (λ d, map (λ w, Dest_Host (DW_Destination w)) (HR_Route d)) (VS_Http stored)
      = [["reviews.default.svc.cluster.local"]]
    ∧ map (λ d, Dest_Host <$> HR_Mirror d) (VS_Http stored)
      = [Some "reviews-shadow.default.svc.cluster.local"]
    ∧ heap' ≠ shortNamedHeap.
Proof.
  do 3 eexists. split; [vm_compute; reflexivity|].
  repeat (split; [vm_compute; reflexivity|]).
  intros H. apply (f_equal (λ h : gmap nat proto_Message, h !! 0%nat)) in H.
  vm_compute in H. discriminate H.
Qed.

(** *** ACKs on the ADS stream *)

Section AdsFacts.
Context {RouteConfiguration Listener Cluster Any ServiceInstance : Type}.
Context `{Env : @AdsEnv RouteConfiguration Listener Cluster Any ServiceInstance}.

Hypothesis typeUrls_distinct : NoDup [ClusterType; ListenerType; RouteType; EndpointType].

Lemma typeUrls_ne :
  ListenerType ≠ ClusterType ∧ RouteType ≠ ClusterType ∧ RouteType ≠ ListenerType
  ∧ EndpointType ≠ ClusterType ∧ EndpointType ≠ ListenerType ∧ EndpointType ≠ RouteType.
Proof.
  pose proof typeUrls_distinct as H.
  rewrite !NoDup_cons, !not_elem_of_cons in H.
  destruct H as ((? & ? & ? & _) & (? & ? & _) & (? & _) & _).
  repeat split; congruence.
Qed.

Lemma sent_app (c : @XdsConnection RouteConfiguration Listener Cluster)
    (tr tr' : list (@Effect Any)) :
  sent (mkAdsState c (tr ++ tr')) = sent (mkAdsState c tr) ++ sent (mkAdsState c tr').
Proof. unfold sent. simpl. apply omap_app. Qed.

(** The switch on an ACK: it ends in [continue], leaves the connection as it
    is and records at most a reject metric. *)
Lemma handleTypeUrl_ack (st : AdsState) (req : DiscoveryRequest) :
  isAck (con st) req →
  ∃ tr, handleTypeUrl req st = (inl true, mkAdsState (con st) (trace st ++ tr))
        ∧ omap (λ e, match e with Sent r => Some r | _ => None end) tr = [].
Proof.
  destruct typeUrls_ne as (Hlc & Hrc & Hrl & Hec & Hel & Her).
  destruct st as [c tr0]. unfold isAck. simpl.
  intros [[Hty Hw]|[[Hty Hw]|[(Hty & Hne & Hlen)|(Hty & Hne & Hlen)]]];
    unfold handleTypeUrl, mbind, Ads_bind, getCon; simpl; rewrite Hty.
  - rewrite String.eqb_refl, Hw.
    destruct (ErrorDetail req); simpl;
      [eexists; split; [reflexivity | done] | exists []; by rewrite app_nil_r].
  - rewrite (proj2 (String.eqb_neq _ _) Hlc), String.eqb_refl, Hw.
    destruct (ErrorDetail req); simpl;
      [eexists; split; [reflexivity | done] | exists []; by rewrite app_nil_r].
  - rewrite (proj2 (String.eqb_neq _ _) Hrc), (proj2 (String.eqb_neq _ _) Hrl),
      String.eqb_refl.
    rewrite Hlen, Nat.eqb_refl. simpl.
    destruct (Routes c) as [|r rs]; [done|]. simpl.
    exists []. by rewrite app_nil_r.
  - rewrite (proj2 (String.eqb_neq _ _) Hec), (proj2 (String.eqb_neq _ _) Hel),
      (proj2 (String.eqb_neq _ _) Her), String.eqb_refl.
    rewrite Hlen, Nat.eqb_refl. simpl.
    destruct (Clusters c) as [|x xs]; [done|]. simpl.
    destruct (ErrorDetail req); simpl;
      [eexists; split; [reflexivity | done] | exists []; by rewrite app_nil_r].
Qed.

Lemma identifyNode_run (st : @AdsState RouteConfiguration Listener Cluster Any)
    (req : DiscoveryRequest) (nt : Proxy) :
  ∃ c', identifyNode req nt st = (inl tt, mkAdsState c' (trace st))
        ∧ CDSWatch c' = CDSWatch (con st) ∧ LDSWatch c' = LDSWatch (con st)
        ∧ Routes c' = Routes (con st) ∧ Clusters c' = Clusters (con st).
Proof.
  unfold identifyNode, mbind, Ads_bind, modifyCon, getCon, when. simpl.
  destruct (String.eqb (ConID (con st)) ""); eexists; (split; [reflexivity|]); done.
Qed.

Lemma registerConnection_run (st : @AdsState RouteConfiguration Listener Cluster Any) :
  ∃ c' tr, registerConnection st = (inl tt, mkAdsState c' (trace st ++ tr))
           ∧ omap (λ e, match e with Sent m => Some m | _ => None end) tr = []
           ∧ Routes c' = Routes (con st).
Proof.
  unfold registerConnection, mbind, Ads_bind, modifyCon, getCon, when, emit. simpl.
  destruct (negb (added (con st))); simpl.
  - eexists _, _. split; [reflexivity|]. done.
  - exists (con st), []. rewrite app_nil_r. by destruct st.
Qed.

(** A request that is an ACK: the handler sends nothing, keeps the watches
    and goes on with the loop. *)
Lemma handleRequest_ack (st : AdsState) (req : DiscoveryRequest) :
  isAck (con st) req →
  ∃ r c' tr,
    handleRequest req st = (r, mkAdsState c' (trace st ++ tr))
    ∧ omap (λ e, match e with Sent m => Some m | _ => None end) tr = []
    ∧ CDSWatch c' = CDSWatch (con st) ∧ LDSWatch c' = LDSWatch (con st)
    ∧ Routes c' = Routes (con st) ∧ Clusters c' = Clusters (con st)
    ∧ (Node_Id req ≠ "" → (∃ n, ParseServiceNode (Node_Id req) = inl n) → r = inl tt).
Proof.
  intros Hack. unfold handleRequest.
  destruct (String.eqb_spec (Node_Id req) "") as [Hid|Hid].
  { exists (inl tt), (con st), []. rewrite app_nil_r. destruct st. by repeat split. }
  destruct (ParseServiceNode (Node_Id req)) as [nt|err] eqn:Hparse.
  2: { exists (inr (Some err)), (con st), []. rewrite app_nil_r. destruct st.
       repeat split; try done. intros _ [n Hn]. discriminate Hn. }
  destruct (identifyNode_run st req nt) as (c1 & Hid1 & H1 & H2 & H3 & H4).
  unfold mbind at 1, Ads_bind at 1. rewrite Hid1.
  destruct (handleTypeUrl_ack (mkAdsState c1 (trace st)) req) as (tr & Hrun & Hns).
  { unfold isAck in *. simpl. rewrite H1, H2, H3, H4. exact Hack. }
  unfold mbind, Ads_bind. rewrite Hrun. simpl.
  exists (inl tt), c1, tr. by repeat split.
Qed.

(** [pushRoute] leaves the watched route names as they are. *)
Lemma pushRoute_Routes (st : AdsState) :
  Routes (con (snd (pushRoute st))) = Routes (con st).
Proof.
  unfold pushRoute, mbind, Ads_bind, getCon. simpl.
  destruct (GetProxyServiceInstances _); [|done].
  unfold derefNode. destruct (modelNode (con st)); [|done]. simpl.
  by destruct (streamSend _).
Qed.

(** After the switch has served an RDS request that names routes, the
    connection watches as many routes as the request names. *)
Lemma handleTypeUrl_rds (st st' : AdsState) (req : DiscoveryRequest) (b : bool) :
  TypeUrl req = RouteType → ResourceNames req ≠ [] →
  handleTypeUrl req st = (inl b, st') →
  Routes (con st') ≠ [] ∧ length (ResourceNames req) = length (Routes (con st')).
Proof.
  destruct typeUrls_ne as (Hlc & Hrc & Hrl & _).
  intros Hty Hnames. destruct st as [c tr0].
  unfold handleTypeUrl, mbind, Ads_bind, getCon. simpl. rewrite Hty.
  rewrite (proj2 (String.eqb_neq _ _) Hrc), (proj2 (String.eqb_neq _ _) Hrl),
    String.eqb_refl.
  destruct (_ && _) eqn:Hcond.
  - unfold mret, Ads_ret. intros [= <- <-]. simpl.
    apply andb_true_iff in Hcond as [Hlen Hpos].
    apply Nat.ltb_lt in Hpos. apply orb_true_iff in Hlen as [Hlen|Hlen].
    + apply Nat.eqb_eq in Hlen. split; [|done].
      intros E. rewrite E in Hpos. simpl in Hpos. lia.
    + apply Nat.eqb_eq in Hlen. by destruct (ResourceNames req).
  - unfold modifyCon. simpl.
    pose proof (pushRoute_Routes (mkAdsState (set_Routes (ResourceNames req) c) tr0)) as Hr.
    destruct (pushRoute _) as [[[]|e] st1]; [|done].
    unfold mret, Ads_ret. intros [= <- <-]. simpl in Hr. by rewrite Hr.
Qed.

Lemma handleRequest_rds (st : AdsState) (req : DiscoveryRequest) :
  TypeUrl req = RouteType → ResourceNames req ≠ [] → Node_Id req ≠ "" →
  fst (handleRequest req st) = inl tt →
  isAck (con (snd (handleRequest req st))) req.
Proof.
  intros Hty Hnames Hid.
  destruct (handleRequest req st) as [r st2] eqn:Hres. simpl. intros ->.
  unfold handleRequest in Hres.
  destruct (String.eqb_spec (Node_Id req) "") as [|_]; [done|].
  destruct (ParseServiceNode (Node_Id req)) as [nt|err]; [|done].
  destruct (identifyNode_run st req nt) as (c1 & Hid1 & _).
  unfold mbind, Ads_bind in Hres. rewrite Hid1 in Hres.
  destruct (handleTypeUrl req _) as [[b|e] st1] eqn:Hswitch; [|done].
  destruct (handleTypeUrl_rds _ st1 req b Hty Hnames Hswitch) as [Hne Hlen].
  right; right; left. destruct b.
  - unfold mret, Ads_ret in Hres. by injection Hres as <-.
  - destruct (registerConnection_run st1) as (c2 & tr & Hreg & _ & Hr).
    rewrite Hreg in Hres. injection Hres as <-. simpl. by rewrite Hr.
Qed.

End AdsFacts.

(** C3. With the four type URLs distinct: a request that is an ACK for the
    connection (a CDS or LDS request when that watch is already set, an RDS
    or EDS request with as many resource names as the non-empty set the
    connection watches) makes the handler send nothing on the stream, the
    request is still an ACK afterwards, and the handler goes on with its
    loop when the node id parses.  And a second RDS request with the same,
    non-empty resource names as one the handler has just served sends
    nothing. *)
Theorem ack_produces_no_response
    {RouteConfiguration Listener Cluster Any ServiceInstance : Type}
    `{Env : @AdsEnv RouteConfiguration Listener Cluster Any ServiceInstance}
    (st : AdsState) (req : DiscoveryRequest) :
  NoDup [ClusterType; ListenerType; RouteType; EndpointType] →
  (isAck (con st) req →
   sent (snd (handleRequest req st)) = sent st
   ∧ isAck (con (snd (handleRequest req st))) req
   ∧ (Node_Id req ≠ "" → (∃ n, ParseServiceNode (Node_Id req) = inl n) →
      fst (handleRequest req st) = inl tt))
  ∧ (TypeUrl req = RouteType → ResourceNames req ≠ [] →
     fst (handleRequest req st) = inl tt →
     sent (snd (handleRequest req (snd (handleRequest req st))))
     = sent (snd (handleRequest req st))).
Proof.
  intros Hdistinct.
  assert (Hack : ∀ st0 : AdsState, isAck (con st0) req →
            sent (snd (handleRequest req st0)) = sent st0
            ∧ isAck (con (snd (handleRequest req st0))) req
            ∧ (Node_Id req ≠ "" → (∃ n, ParseServiceNode (Node_Id req) = inl n) →
               fst (handleRequest req st0) = inl tt)).
  { intros st0 H.
    destruct (handleRequest_ack Hdistinct st0 req H)
      as (r & c' & tr & -> & Hns & H1 & H2 & H3 & H4 & Hr).
    simpl. split.
    { destruct st0 as [c0 tr0]. simpl. rewrite sent_app. unfold sent at 2. simpl.
      by rewrite Hns, app_nil_r. }
    split; [|done]. unfold isAck in *. by rewrite H1, H2, H3, H4. }
  split; [apply Hack|].
  intros Hty Hnames Hok.
  destruct (String.eqb_spec (Node_Id req) "") as [Hid|Hid].
  - unfold handleRequest. apply String.eqb_eq in Hid. by rewrite Hid.
  - apply Hack. by apply handleRequest_rds.
Qed.

Lemma ack_produces_no_response_witness :
  NoDup [ClusterType (AdsEnv := exampleAdsEnv); ListenerType (AdsEnv := exampleAdsEnv);
         RouteType (AdsEnv := exampleAdsEnv); EndpointType (AdsEnv := exampleAdsEnv)]
  ∧ isAck (Env := exampleAdsEnv)
      (con (snd (handleRequest (Env := exampleAdsEnv)
                   (requestFor "Cluster" []) freshState)))
      (requestFor "Cluster" [])
  ∧ sent (snd (handleRequest (Env := exampleAdsEnv)
                 (requestFor "Cluster" [])
                 (snd (handleRequest (Env := exampleAdsEnv)
                         (requestFor "Cluster" [])
                         freshState))))
    = sent (snd (handleRequest (Env := exampleAdsEnv)
                   (requestFor "Cluster" []) freshState)).
Proof.
  assert (Hd : NoDup [ClusterType (AdsEnv := exampleAdsEnv);
                      ListenerType (AdsEnv := exampleAdsEnv);
                      RouteType (AdsEnv := exampleAdsEnv);
                      EndpointType (AdsEnv := exampleAdsEnv)]).
  { apply (bool_decide_unpack _). vm_compute. exact I. }
  assert (Ha : isAck (Env := exampleAdsEnv)
      (con (snd (handleRequest (Env := exampleAdsEnv)
                   (requestFor "Cluster" []) freshState)))
      (requestFor "Cluster" [])).
  { left. split; vm_compute; reflexivity. }
  split; [exact Hd|]. split; [exact Ha|].
  exact (proj1 (proj1 (ack_produces_no_response (Env := exampleAdsEnv) _ _ Hd) Ha)).
Defined.

(** Two identical CDS requests: one response. *)
Example two_cluster_requests_one_response :
  sent (snd (StreamAggregatedResources (Env := exampleAdsEnv)
               [Request (requestFor "Cluster" []);
                Request (requestFor "Cluster" [])]
               freshState))
  = [mkDiscoveryResponse "Cluster" "v1" "n1" ["clusters"]].
Proof. vm_compute. reflexivity. Qed.

(** Two identical RDS requests naming a route: one response. *)
Example two_route_requests_one_response :
  sent (snd (StreamAggregatedResources (Env := exampleAdsEnv)
               [Request (requestFor "Route" ["80"]);
                Request (requestFor "Route" ["80"])]
               freshState))
  = [mkDiscoveryResponse "Route" "v1" "n1" ["80"]].
Proof. vm_compute. reflexivity. Qed.

(** An RDS request that names no route is outside the ACK rule while the
    connection watches no route: each such request is served. *)
Example empty_route_requests_are_served :
  length (sent (snd (StreamAggregatedResources (Env := exampleAdsEnv)
               [Request (requestFor "Route" []);
                Request (requestFor "Route" [])]
               freshState)))
  = 2%nat.
Proof. vm_compute. reflexivity. Qed.

(** * Part III: further properties of the compiled code *)

(** ** route.go: grouping services by port *)

Section GroupByPort.
Context `{API : ModelAPI}.




End GroupByPort.

(** ** route.go: virtual hosts of one virtual service *)

Lemma length_omap_le {A B} (f : A → option B) (l : list A) :
  (length (omap f l) ≤ length l)%nat.
Proof. induction l as [|x l IH]; csimpl; [done|]. destruct (f x); simpl; lia. Qed.

Section VirtualHostShape.
Context `{API : ModelAPI}.

Lemma matchServiceHosts_fold (serviceIndex : gmap string Service) (hosts : list string)
    (a : list string) (b : list Service) :
  foldl (λ acc host,
           match serviceIndex !! host with
           | Some svc => (fst acc, snd acc ++ [svc])
           | None => (fst acc ++ [host], snd acc)
           end) (a, b) hosts
  = (a ++ filter (λ host, serviceIndex !! host = None) hosts,
     b ++ omap (λ host, serviceIndex !! host) hosts).
Proof.
  revert a b. induction hosts as [|h hosts IH]; intros a b; simpl.
  - by rewrite !app_nil_r.
  - rewrite filter_cons. destruct (serviceIndex !! h) as [svc|] eqn:Hh; simpl; rewrite IH;
      by rewrite <- app_assoc.
Qed.

(** X2. [matchServiceHosts] keeps the order of the virtual service's hosts:
    the literal hosts are exactly the hosts absent from the service index,
    the services are those the index has for the other hosts; a config that
    is not a virtual service makes it panic. *)
Theorem matchServiceHosts_spec (in_ : Config proto_Message)
    (serviceIndex : gmap string Service) :
  matchServiceHosts in_ serviceIndex
  = match Spec in_ with
    | MsgVirtualService rule =>
        Returns (filter (λ host, serviceIndex !! host = None) (VS_Hosts rule),
                 omap (λ host, serviceIndex !! host) (VS_Hosts rule))
    | _ => Panics
    end.
Proof.
  unfold matchServiceHosts. destruct (Spec in_); try done. simpl.
  by rewrite matchServiceHosts_fold.
Qed.

Lemma foldl_portHost (in_ : Config proto_Message) (serviceIndex : gmap string Service)
    (proxyLabels : list (gmap string string)) (gatewayName : gmap string bool)
    (hosts : list string) (kvs : list (Z * list Service)) (out : list GuardedHost) :
  foldl (λ out kv,
           match TranslateRoutes in_ serviceIndex (fst kv) proxyLabels gatewayName with
           | inl routes =>
               if (length routes =? 0)%nat then out
               else out ++ [ {| GH_Port := fst kv; GH_Services := snd kv;
                                GH_Hosts := hosts; GH_Routes := routes |} ]
           | inr _ => out
           end) out kvs
  = out ++ omap (portHost in_ serviceIndex proxyLabels gatewayName hosts) kvs.
Proof.
  revert out. induction kvs as [|kv kvs IH]; intros out; simpl.
  - by rewrite app_nil_r.
  - rewrite IH. unfold portHost at 2.
    destruct (TranslateRoutes _ _ _ _ _) as [routes|]; [|done].
    destruct (length routes =? 0)%nat; [done|]. simpl. by rewrite <- app_assoc.
Qed.

Lemma omap_portHost_ports (in_ : Config proto_Message) (serviceIndex : gmap string Service)
    (proxyLabels : list (gmap string string)) (gatewayName : gmap string bool)
    (hosts : list string) (kvs : list (Z * list Service)) :
  map GH_Port (omap (portHost in_ serviceIndex proxyLabels gatewayName hosts) kvs)
    `sublist_of` map fst kvs.
Proof.
  induction kvs as [|kv kvs IH]; simpl; [done|].
  unfold portHost at 1. destruct (TranslateRoutes _ _ _ _ _) as [routes|];
    [destruct (length routes =? 0)%nat|]; simpl;
    try (by apply sublist_cons); by apply sublist_skip.
Qed.

(** X3. For a virtual service, [translateVirtualHost] returns as many
    zero-valued entries as there are ports (at least one) followed by at most
    one guarded host per port; each of these has the routes [TranslateRoutes]
    gives for its port, which are not empty, and carries the literal hosts
    of the virtual service. *)
Theorem translateVirtualHost_shape (in_ : Config proto_Message) (rule : VirtualService)
    (serviceIndex : gmap string Service) (proxyLabels : list (gmap string string))
    (gatewayName : gmap string bool) :
  Spec in_ = MsgVirtualService rule →
  ∃ n rest,
    translateVirtualHost in_ serviceIndex proxyLabels gatewayName
    = Returns (replicate (S n) zeroGuardedHost ++ rest)
    ∧ (length rest ≤ S n)%nat
    ∧ NoDup (map GH_Port rest)
    ∧ Forall (λ h,
        GH_Routes h ≠ []
        ∧ TranslateRoutes in_ serviceIndex (GH_Port h) proxyLabels gatewayName
          = inl (GH_Routes h)
        ∧ GH_Hosts h = filter (λ host, serviceIndex !! host = None) (VS_Hosts rule)) rest.
Proof.
  intros Hspec. unfold translateVirtualHost. rewrite matchServiceHosts_spec, Hspec. simpl.
  set (hosts := filter _ (VS_Hosts rule)).
  set (m := if (size (groupByPort _) =? 0)%nat then _ else _).
  assert (Hsize : ∃ n, size m = S n).
  { subst m. destruct (Nat.eqb_spec (size (groupByPort (omap (λ host, serviceIndex !! host)
                                                          (VS_Hosts rule)))) 0) as [E|E].
    - apply map_size_empty_inv in E. rewrite E. exists 0%nat.
      by rewrite insert_empty, map_size_singleton.
    - destruct (size (groupByPort _)); [done | by eexists]. }
  destruct Hsize as [n Hn]. rewrite Hn.
  exists n, (omap (portHost in_ serviceIndex proxyLabels gatewayName hosts) (map_to_list m)).
  rewrite foldl_portHost. split; [done|]. split.
  { rewrite <- Hn, <- length_map_to_list. apply length_omap_le. }
  split.
  { eapply sublist_NoDup; [apply (NoDup_fst_map_to_list m) | apply omap_portHost_ports]. }
  apply Forall_forall. intros h Hh. apply list_elem_of_omap in Hh as (kv & _ & Hkv).
  unfold portHost in Hkv.
  destruct (TranslateRoutes in_ serviceIndex kv.1 proxyLabels gatewayName)
    as [routes|] eqn:Hroutes; [|done].
  destruct (Nat.eqb_spec (length routes) 0) as [|Hlen]; [done|].
  injection Hkv as <-. simpl. split; [by destruct routes|]. by split.
Qed.

End VirtualHostShape.

Lemma translateVirtualHost_shape_witness :
  (∃ rule, Spec reviewsRoute = MsgVirtualService rule)
  ∧ ∃ n rest,
      translateVirtualHost (API := exampleAPI) reviewsRoute
        {[ "reviews.example.com" := reviewsService ]} [] ∅
      = Returns (replicate (S n) zeroGuardedHost ++ rest)
      ∧ (length rest ≤ S n)%nat
      ∧ NoDup (map GH_Port rest).
Proof.
  split; [eexists; reflexivity|].
  destruct (translateVirtualHost_shape (API := exampleAPI) reviewsRoute _
              {[ "reviews.example.com" := reviewsService ]} [] ∅ eq_refl)
    as (n & rest & Heq & Hlen & Hnd & _).
  by exists n, rest.
Defined.

(** ** route.go: what the routes of a virtual service carry *)

Lemma rulesVisited_subseteq (rules : list HTTPRoute) (http : HTTPRoute) :
  http ∈ rulesVisited rules → http ∈ rules.
Proof.
  induction rules as [|h rules IH]; simpl; [done|].
  destruct (HR_Match h).
  - intros Hin. apply list_elem_of_singleton in Hin as ->. left.
  - rewrite !elem_of_cons. intros [->|Hin]; [by left | right; by apply IH].
Qed.

Section RouteContents.
Context `{API : ModelAPI}.
Context (port : Z) (operation : string) (serviceIndex : gmap string Service)
  (proxyLabels : list (gmap string string)) (gatewayNames : gmap string bool).

(** What a route produced by [translateRoute] carries. *)
Lemma translateRoute_contents (http : HTTPRoute) (match_ : option HTTPMatchRequest)
    (r : Route) :
  translateRoute http match_ port operation serviceIndex proxyLabels gatewayNames = Some r →
  Route_Decorator r = operation
  ∧ Route_Match r = translateRouteMatch match_
  ∧ routeClusters r
    = match HR_Redirect http with
      | Some _ => []
      | None => map (λ dst, ConvertDestinationToCluster (DW_Destination dst) operation
                              serviceIndex port) (HR_Route http)
      end
  ∧ routeMirror r
    = match HR_Redirect http with
      | Some _ => None
      | None => (λ mirror, ConvertDestinationToCluster mirror operation serviceIndex port)
                  <$> HR_Mirror http
      end.
Proof.
  unfold translateRoute. destruct (negb (sourceMatchHTTP _ _ _)); [done|].
  destruct (match match_ with Some _ => _ | None => _ end); [done|].
  intros [= <-]. unfold routeClusters, routeMirror. simpl.
  split; [done|]. split; [done|].
  destruct (HR_Redirect http); simpl; [done|].
  rewrite weightedClusters_map. split.
  - destruct (HR_Route http) as [|d1 [|d2 rest]]; simpl; try done.
    by rewrite map_map.
  - by destruct (HR_Mirror http).
Qed.

(** Where a route in the result of the rule loop comes from. *)
Lemma routesOfRule_origin (http : HTTPRoute) (r : Route) :
  r ∈ routesOfRule http port operation serviceIndex proxyLabels gatewayNames →
  ∃ match_,
    translateRoute http match_ port operation serviceIndex proxyLabels gatewayNames = Some r
    ∧ match match_ with
      | None => HR_Match http = []
      | Some m => m ∈ HR_Match http
      end.
Proof.
  unfold routesOfRule. destruct (HR_Match http) as [|m ms] eqn:Hm.
  - destruct (translateRoute http None _ _ _ _ _) as [r'|] eqn:Hr; simpl.
    + intros Hin. apply list_elem_of_singleton in Hin as ->. by exists None.
    + intros Hin. by apply elem_of_nil in Hin.
  - intros Hin. apply list_elem_of_omap in Hin as (m' & Hin & Hr). by exists (Some m').
Qed.

End RouteContents.

Lemma TranslateRoutes_origin `{API : ModelAPI}
    (virtualService : Config proto_Message) (serviceIndex : gmap string Service) (port : Z)
    (proxyLabels : list (gmap string string)) (gatewayNames : gmap string bool)
    (routes : list Route) :
  TranslateRoutes virtualService serviceIndex port proxyLabels gatewayNames = inl routes →
  routes ≠ []
  ∧ ∃ rule, Spec virtualService = MsgVirtualService rule
      ∧ ∀ r, r ∈ routes →
          ∃ http match_,
            http ∈ VS_Http rule
            ∧ translateRoute http match_ port (Name (Meta virtualService)) serviceIndex
                proxyLabels gatewayNames = Some r
            ∧ match match_ with
              | None => HR_Match http = []
              | Some m => m ∈ HR_Match http
              end.
Proof.
  unfold TranslateRoutes. destruct (Spec virtualService) as [rule| | |]; try done.
  rewrite translateRules_spec. simpl.
  destruct (Nat.eqb_spec (length (flat_map
              (λ http, routesOfRule http port (Name (Meta virtualService)) serviceIndex
                         proxyLabels gatewayNames) (rulesVisited (VS_Http rule)))) 0)
    as [|Hlen]; [done|].
  intros [= <-]. split.
  { intros E. by rewrite E in Hlen. }
  exists rule. split; [done|]. intros r Hr.
  apply list_elem_of_In, in_flat_map in Hr as (http & Hhttp & Hr).
  apply list_elem_of_In in Hhttp, Hr. apply rulesVisited_subseteq in Hhttp.
  destruct (routesOfRule_origin _ _ _ _ _ _ _ Hr) as (match_ & Htr & Hm).
  by exists http, match_.
Qed.

(** X4. When [TranslateRoutes] returns routes, there is at least one, and
    every route carries the name of the virtual service as its decorator
    operation. *)
Theorem TranslateRoutes_decorators `{API : ModelAPI}
    (virtualService : Config proto_Message) (serviceIndex : gmap string Service) (port : Z)
    (proxyLabels : list (gmap string string)) (gatewayNames : gmap string bool)
    (routes : list Route) :
  TranslateRoutes virtualService serviceIndex port proxyLabels gatewayNames = inl routes →
  routes ≠ []
  ∧ Forall (λ r, Route_Decorator r = Name (Meta virtualService)) routes.
Proof.
  intros Hroutes.
  destruct (TranslateRoutes_origin _ _ _ _ _ _ Hroutes) as (Hne & rule & _ & Horigin).
  split; [done|]. apply Forall_forall. intros r Hr.
  destruct (Horigin r Hr) as (http & match_ & _ & Htr & _).
  by apply translateRoute_contents in Htr as [? _].
Qed.

Lemma TranslateRoutes_decorators_witness :
  ∃ routes,
    TranslateRoutes (API := exampleAPI) reviewsRoute
      {[ "reviews.example.com" := reviewsService ]} 9080 [] ∅ = inl routes
    ∧ routes ≠ []
    ∧ Forall (λ r, Route_Decorator r = "reviews-route") routes.
Proof.
  eexists. split; [vm_compute; reflexivity|].
  apply (TranslateRoutes_decorators (API := exampleAPI) reviewsRoute
           {[ "reviews.example.com" := reviewsService ]} 9080 [] ∅).
  vm_compute. reflexivity.
Defined.

(** X5. Blackhole totality.  When no destination host and no mirror host of
    the virtual service's HTTP rules is in the service index, every cluster
    a route of [TranslateRoutes] refers to, as its target or as its mirror,
    is the blackhole cluster. *)
Theorem TranslateRoutes_blackhole `{API : ModelAPI}
    (virtualService : Config proto_Message) (rule : VirtualService)
    (serviceIndex : gmap string Service) (port : Z)
    (proxyLabels : list (gmap string string)) (gatewayNames : gmap string bool)
    (routes : list Route) :
  Spec virtualService = MsgVirtualService rule →
  (∀ http dst, http ∈ VS_Http rule → dst ∈ HR_Route http →
     serviceIndex !! Dest_Host (DW_Destination dst) = None) →
  (∀ http mirror, http ∈ VS_Http rule → HR_Mirror http = Some mirror →
     serviceIndex !! Dest_Host mirror = None) →
  TranslateRoutes virtualService serviceIndex port proxyLabels gatewayNames = inl routes →
  Forall (λ r, Forall (λ c, c = BlackHoleCluster) (routeClusters r)
               ∧ ∀ c, routeMirror r = Some c → c = BlackHoleCluster) routes.
Proof.
  intros Hspec Hdst Hmirror Hroutes.
  destruct (TranslateRoutes_origin _ _ _ _ _ _ Hroutes) as (_ & rule' & Hspec' & Horigin).
  rewrite Hspec in Hspec'. injection Hspec' as <-.
  apply Forall_forall. intros r Hr.
  destruct (Horigin r Hr) as (http & match_ & Hhttp & Htr & _).
  apply translateRoute_contents in Htr as (_ & _ & Hc & Hm).
  rewrite Hc, Hm. destruct (HR_Redirect http); [by split|]. split.
  - apply Forall_forall. intros c Hin. apply list_elem_of_fmap in Hin as (dst & -> & Hin).
    unfold ConvertDestinationToCluster. by rewrite (Hdst http dst Hhttp Hin).
  - intros c. destruct (HR_Mirror http) as [mirror|] eqn:Hmir; [|done].
    simpl. intros [= <-]. unfold ConvertDestinationToCluster.
    by rewrite (Hmirror http mirror Hhttp Hmir).
Qed.

Lemma TranslateRoutes_blackhole_witness :
  ∃ routes,
    TranslateRoutes (API := exampleAPI) reviewsRoute ∅ 80 [] ∅ = inl routes
    ∧ Forall (λ r, Forall (λ c, c = "BlackHoleCluster") (routeClusters r)
                   ∧ ∀ c, routeMirror r = Some c → c = "BlackHoleCluster") routes.
Proof.
  eexists. split; [vm_compute; reflexivity|].
  eapply (TranslateRoutes_blackhole (API := exampleAPI) reviewsRoute _ ∅ 80 [] ∅ _ eq_refl).
  - intros. apply lookup_empty.
  - intros. apply lookup_empty.
  - vm_compute. reflexivity.
Defined.

(** ** route.go: the order of header matchers *)

Lemma String_ltb_false_trans (a b c : string) :
  String.ltb b a = false → String.ltb c b = false → String.ltb c a = false.
Proof.
  intros Hba Hcb. destruct (String.ltb c a) eqn:Hca; [|done].
  destruct (String.ltb a b) eqn:Hab.
  - by rewrite (String_ltb_trans c a b) in Hcb.
  - assert (a = b) as -> by by apply String_ltb_total. congruence.
Qed.

Lemma headerLess_asym (a b : HeaderMatcher) :
  headerLess a b = true → headerLess b a = false.
Proof.
  unfold headerLess. rewrite (String.eqb_sym (Header_Name b)).
  destruct (String.eqb (Header_Name a) (Header_Name b)); intros H.
  - destruct (String.ltb (Header_Value b) (Header_Value a)) eqn:E; [|done].
    by rewrite <- (String_ltb_irrefl (Header_Value a)), (String_ltb_trans _ _ _ H E).
  - destruct (String.ltb (Header_Name b) (Header_Name a)) eqn:E; [|done].
    by rewrite <- (String_ltb_irrefl (Header_Name a)), (String_ltb_trans _ _ _ H E).
Qed.

#[local] Instance notAfter_headerLess_total : Total (notAfter headerLess).
Proof.
  intros a b. unfold notAfter.
  destruct (headerLess b a) eqn:E; [right; by apply headerLess_asym | by left].
Qed.

#[local] Instance notAfter_headerLess_trans : Transitive (notAfter headerLess).
Proof.
  intros a b c. unfold notAfter, headerLess.
  destruct (String.eqb_spec (Header_Name b) (Header_Name a)) as [Eba|Nba];
    destruct (String.eqb_spec (Header_Name c) (Header_Name b)) as [Ecb|Ncb];
    destruct (String.eqb_spec (Header_Name c) (Header_Name a)) as [Eca|Nca];
    intros H1 H2; try congruence;
    try (by eapply String_ltb_false_trans).
  - exfalso. apply Nba. rewrite Eca in H2. by apply String_ltb_total.
Qed.

Lemma translateHeaderMatch_name (name : string) (m : StringMatch) :
  Header_Name (translateHeaderMatch name m) = name.
Proof. by destruct m. Qed.

Lemma sorted_by_name (l : list HeaderMatcher) :
  StronglySorted (notAfter headerLess) l → NoDup (map Header_Name l) →
  StronglySorted (λ a b, String.compare (Header_Name a) (Header_Name b) = Lt) l.
Proof.
  induction 1 as [|x l Hs IH Hall]; simpl; intros Hnd; [constructor|].
  apply NoDup_cons in Hnd as [Hx Hnd]. constructor; [by apply IH|].
  apply Forall_forall. intros y Hy. rewrite Forall_forall in Hall.
  specialize (Hall y Hy). unfold notAfter, headerLess in Hall.
  assert (Hne : Header_Name y ≠ Header_Name x).
  { intros E. apply Hx. rewrite <- E. apply list_elem_of_fmap. by exists y. }
  rewrite (proj2 (String.eqb_neq _ _) Hne) in Hall.
  apply String_ltb_lt. destruct (String.ltb (Header_Name x) (Header_Name y)) eqn:E; [done|].
  exfalso. apply Hne. by apply String_ltb_total.
Qed.

(** X6. The header matchers of a translated match come in a fixed order:
    first those of the [Headers] map, one per entry, in strictly increasing
    order of header name (so the order does not depend on how the map is
    iterated), then [:method], [:authority] and [:scheme] for the fields
    that are set. *)
Theorem translateRouteMatch_headers (m : HTTPMatchRequest) :
  ∃ sorted,
    RM_Headers (translateRouteMatch (Some m))
    = sorted
      ++ option_list (translateHeaderMatch HeaderMethod <$> HM_Method m)
      ++ option_list (translateHeaderMatch HeaderAuthority <$> HM_Authority m)
      ++ option_list (translateHeaderMatch HeaderScheme <$> HM_Scheme m)
    ∧ sorted ≡ₚ map (λ kv, translateHeaderMatch (fst kv) (snd kv))
                    (map_to_list (HM_Headers m))
    ∧ StronglySorted (λ a b, String.compare (Header_Name a) (Header_Name b) = Lt) sorted.
Proof.
  exists (sort_Sort headerLess
            (map (λ kv, translateHeaderMatch (fst kv) (snd kv))
                 (map_to_list (HM_Headers m)))).
  split; [|split].
  - unfold translateRouteMatch, appendHeader. cbn [RM_Headers].
    generalize (sort_Sort headerLess
                  (map (λ kv, translateHeaderMatch (fst kv) (snd kv))
                       (map_to_list (HM_Headers m)))).
    intros sorted.
    destruct (HM_Method m), (HM_Authority m), (HM_Scheme m);
      cbn [fmap option_fmap option_map option_list];
      rewrite <- ?app_assoc, ?app_nil_r; reflexivity.
  - apply merge_sort_Permutation.
  - apply sorted_by_name.
    + apply StronglySorted_merge_sort; apply _.
    + unfold sort_Sort. rewrite merge_sort_Permutation.
      rewrite map_map. erewrite map_ext; [apply NoDup_fst_map_to_list|].
      intros [name sm]. apply translateHeaderMatch_name.
Qed.

Example translateRouteMatch_example :
  map Header_Name
    (RM_Headers (translateRouteMatch
       (Some (mkHTTPMatchRequest None None (Some (StringMatch_Exact "GET")) None
                {[ "version" := StringMatch_Exact "v2"; "cookie" := StringMatch_Prefix "a.b";
                   "foo" := StringMatch_Regex "^bar.*$" ]} 0 ∅ []))))
  = ["cookie"; "foo"; "version"; ":method"].
Proof. vm_compute. reflexivity. Qed.

(** ** route.go: default hosts *)

Section DefaultHosts.
Context `{API : ModelAPI}.

Lemma defaultHosts_spec (svc : Service) :
  defaultHosts svc
  = omap (λ port, if IsHTTP (Port_Protocol port) then Some (defaultHost svc port) else None)
         (Service_Ports svc).
Proof.
  unfold defaultHosts.
  assert (H : ∀ ports out,
    foldl (λ out port,
        if IsHTTP (Port_Protocol port)
        then
          let cluster :=
            BuildSubsetKey TrafficDirectionOutbound "" (Service_Hostname svc) port in
          out ++ [ {| GH_Port := Port_Port port; GH_Services := [svc]; GH_Hosts := [];
                      GH_Routes := [BuildDefaultHTTPRoute cluster] |} ]
        else out) out ports
    = out ++ omap (λ port, if IsHTTP (Port_Protocol port)
                           then Some (defaultHost svc port) else None) ports).
  { induction ports as [|port ports IH]; intros out; csimpl.
    - by rewrite app_nil_r.
    - rewrite IH. destruct (IsHTTP (Port_Protocol port)); [|done].
      by rewrite <- app_assoc. }
  apply (H _ []).
Qed.

Lemma elem_of_defaultHosts (svc : Service) (h : GuardedHost) :
  h ∈ defaultHosts svc
  ↔ ∃ port, port ∈ Service_Ports svc ∧ IsHTTP (Port_Protocol port) = true
            ∧ h = defaultHost svc port.
Proof.
  rewrite defaultHosts_spec, list_elem_of_omap. split.
  - intros (port & Hin & Hp). exists port.
    destruct (IsHTTP (Port_Protocol port)); [|done]. by injection Hp as <-.
  - intros (port & Hin & Hhttp & ->). exists port. by rewrite Hhttp.
Qed.

Lemma coveredBy_spec (hosts : list GuardedHost) (fqdn : string) :
  coveredBy hosts fqdn = true
  ↔ ∃ vh s, vh ∈ hosts ∧ s ∈ GH_Services vh ∧ Service_Hostname s = fqdn.
Proof.
  unfold coveredBy. rewrite existsb_exists. split.
  - intros (vh & Hvh & Hs). apply existsb_exists in Hs as (s & Hs & E).
    exists vh, s. rewrite !list_elem_of_In. by apply String.eqb_eq in E.
  - intros (vh & s & Hvh & Hs & E). exists vh. split; [by apply list_elem_of_In|].
    apply existsb_exists. exists s. split; [by apply list_elem_of_In|].
    by apply String.eqb_eq.
Qed.

(** What is left of [missing] after the hostnames of the services of the
    guarded hosts have been deleted. *)
Lemma missing_lookup (out : list GuardedHost) (missing : gmap string bool) (fqdn : string) :
  foldl (λ missing host,
           foldl (λ missing service, delete (Service_Hostname service) missing)
                 missing (GH_Services host))
        missing out !! fqdn
  = if coveredBy out fqdn then None else missing !! fqdn.
Proof.
  assert (Hinner : ∀ services (m : gmap string bool),
    foldl (λ missing service, delete (Service_Hostname service) missing) m services !! fqdn
    = if existsb (λ s, String.eqb (Service_Hostname s) fqdn) services
      then None else m !! fqdn).
  { induction services as [|s services IH]; intros m; simpl; [done|].
    rewrite IH. destruct (existsb _ services); [by rewrite orb_true_r|].
    rewrite orb_false_r. destruct (String.eqb_spec (Service_Hostname s) fqdn) as [E|Ne].
    - rewrite <- E. apply lookup_delete_eq.
    - by rewrite lookup_delete_ne. }
  unfold coveredBy. revert missing.
  induction out as [|vh out IH]; intros missing; simpl; [done|].
  rewrite IH, Hinner. destruct (existsb _ out); [by rewrite orb_true_r|].
  by rewrite orb_false_r.
Qed.

Lemma defaults_loop (services : gmap string Service) (kvs : list (string * bool))
    (out : list GuardedHost) :
  (∀ kv, kv ∈ kvs → is_Some (services !! fst kv)) →
  ∃ defaults,
    forEach (λ out kv,
        match services !! fst kv with
        | Some svc => Returns (out ++ defaultHosts svc)
        | None => Panics
        end) kvs out
    = Returns (out ++ defaults)
    ∧ ∀ h, h ∈ defaults
           ↔ ∃ kv svc, kv ∈ kvs ∧ services !! fst kv = Some svc ∧ h ∈ defaultHosts svc.
Proof.
  revert out. induction kvs as [|kv kvs IH]; intros out Hkeys; simpl.
  - exists []. rewrite app_nil_r. split; [done|]. intros h. split.
    + intros Hh. by apply elem_of_nil in Hh.
    + intros (kv & _ & Hkv & _). by apply elem_of_nil in Hkv.
  - destruct (Hkeys kv) as [svc Hsvc]; [left|]. rewrite Hsvc. simpl.
    destruct (IH (out ++ defaultHosts svc)) as (defaults & -> & Hdef).
    { intros kv' Hkv'. apply Hkeys. by right. }
    exists (defaultHosts svc ++ defaults). rewrite <- app_assoc. split; [done|].
    intros h. rewrite elem_of_app, Hdef. split.
    + intros [Hh|(kv' & svc' & Hkv' & Hs & Hh)].
      * exists kv, svc. split; [left | done].
      * exists kv', svc'. split; [by right | done].
    + intros (kv' & svc' & Hkv' & Hs & Hh).
      apply elem_of_cons in Hkv' as [->|Hkv'].
      * left. rewrite Hsvc in Hs. by injection Hs as <-.
      * right. by exists kv', svc'.
Qed.

Lemma translateAll_returns (serviceConfigs : list (Config proto_Message))
    (services : gmap string Service) (proxyLabels : list (gmap string string))
    (gatewayNames : gmap string bool) (out : list GuardedHost) :
  Forall (λ c, ∃ rule, Spec c = MsgVirtualService rule) serviceConfigs →
  ∃ vhosts,
    forEach (λ out config,
               vhosts ← translateVirtualHost config services proxyLabels gatewayNames;
               Returns (out ++ vhosts)) serviceConfigs out
    = Returns vhosts.
Proof.
  intros Hall. revert out.
  induction Hall as [|c cs [rule Hc] Hall IH]; intros out; simpl; [by eexists|].
  destruct (translateVirtualHost_zero_prefix c rule services proxyLabels gatewayNames Hc)
    as [rest ->]. simpl. apply IH.
Qed.

End DefaultHosts.

(** X7. Default route coverage.  When every config is a virtual service,
    [TranslateVirtualHosts] returns the hosts of the virtual services
    followed by default hosts, and the default hosts are exactly these: for
    each key of the service index that is not the hostname of a service of
    one of the translated hosts, and each HTTP port of the indexed service,
    one host at that port with the service and a single default route to
    the service's outbound cluster for the port. *)
Theorem TranslateVirtualHosts_defaults `{API : ModelAPI}
    (serviceConfigs : list (Config proto_Message)) (services : gmap string Service)
    (proxyLabels : list (gmap string string)) (gatewayNames : gmap string bool) :
  Forall (λ c, ∃ rule, Spec c = MsgVirtualService rule) serviceConfigs →
  ∃ vhosts defaults,
    forEach (λ out config,
               vhosts ← translateVirtualHost config services proxyLabels gatewayNames;
               Returns (out ++ vhosts)) serviceConfigs []
    = Returns vhosts
    ∧ TranslateVirtualHosts serviceConfigs services proxyLabels gatewayNames
      = Returns (vhosts ++ defaults)
    ∧ ∀ h, h ∈ defaults
           ↔ ∃ fqdn svc port,
               services !! fqdn = Some svc
               ∧ (¬ ∃ vh s, vh ∈ vhosts ∧ s ∈ GH_Services vh ∧ Service_Hostname s = fqdn)
               ∧ port ∈ Service_Ports svc ∧ IsHTTP (Port_Protocol port) = true
               ∧ h = defaultHost svc port.
Proof.
  intros Hall.
  destruct (translateAll_returns serviceConfigs services proxyLabels gatewayNames [] Hall)
    as [vhosts Hv].
  unfold TranslateVirtualHosts. rewrite Hv. simpl.
  set (missing := foldl _ _ vhosts).
  assert (Hmissing : ∀ fqdn b, missing !! fqdn = Some b
            ↔ is_Some (services !! fqdn) ∧ b = true
              ∧ ¬ ∃ vh s, vh ∈ vhosts ∧ s ∈ GH_Services vh ∧ Service_Hostname s = fqdn).
  { intros fqdn b. subst missing. rewrite missing_lookup.
    rewrite <- coveredBy_spec. destruct (coveredBy vhosts fqdn).
    - split; [done | by intros (_ & _ & ?)].
    - rewrite lookup_fmap_Some. split.
      + intros (svc & Hb & Hs). split; [by eexists|]. by split.
      + intros ([svc Hs] & Hb & _). by exists svc. }
  destruct (defaults_loop services (map_to_list missing) vhosts) as (defaults & -> & Hdef).
  { intros [fqdn b] Hkv. apply elem_of_map_to_list in Hkv. by apply Hmissing in Hkv as [? _]. }
  exists vhosts, defaults. split; [done|]. split; [done|].
  intros h. rewrite Hdef. split.
  - intros ([fqdn b] & svc & Hkv & Hsvc & Hh). simpl in Hsvc.
    apply elem_of_map_to_list, Hmissing in Hkv as (_ & _ & Hn).
    apply elem_of_defaultHosts in Hh as (port & Hp & Hhttp & ->).
    by exists fqdn, svc, port.
  - intros (fqdn & svc & port & Hsvc & Hn & Hp & Hhttp & ->).
    exists (fqdn, true), svc. split; [|split; [done|]].
    + apply elem_of_map_to_list, Hmissing. split; [by eexists|]. by split.
    + apply elem_of_defaultHosts. by exists port.
Qed.

Lemma TranslateVirtualHosts_defaults_witness :
  Forall (λ c, ∃ rule, Spec c = MsgVirtualService rule) [reviewsRoute]
  ∧ ∃ vhosts defaults,
      TranslateVirtualHosts (API := exampleAPI) [reviewsRoute]
        {[ "reviews.example.com" := reviewsService;
           "ratings.example.com" := ratingsService ]} [] ∅
      = Returns (vhosts ++ defaults)
      ∧ defaults = [defaultHost (API := exampleAPI) ratingsService (mkPort "http" 8080 "HTTP")].
Proof.
  assert (Hall : Forall (λ c, ∃ rule, Spec c = MsgVirtualService rule) [reviewsRoute]).
  { repeat constructor. eexists. reflexivity. }
  split; [exact Hall|].
  destruct (TranslateVirtualHosts_defaults (API := exampleAPI) [reviewsRoute]
              {[ "reviews.example.com" := reviewsService;
                 "ratings.example.com" := ratingsService ]} [] ∅ Hall)
    as (vhosts & defaults & Hv & Heq & _).
  exists vhosts, defaults. split; [exact Heq|].
  vm_compute in Hv. injection Hv as <-.
  vm_compute in Heq. injection Heq as <-. reflexivity.
Defined.

(** ** The ADS handler: pushes, subscriptions and the end of the stream *)

Section AdsMore.
Context {RouteConfiguration Listener Cluster Any ServiceInstance : Type}.
Context `{Env : @AdsEnv RouteConfiguration Listener Cluster Any ServiceInstance}.

Lemma foldl_insert_lookup (f : string → RouteConfiguration) (names : list string)
    (m : gmap string RouteConfiguration) (name : string) :
  foldl (λ m routeName, <[routeName := f routeName]> m) m names !! name
  = if bool_decide (name ∈ names) then Some (f name) else m !! name.
Proof.
  revert m. induction names as [|n names IH]; intros m; simpl; [done|].
  rewrite IH. destruct (decide (name ∈ names)) as [Hin|Hnin].
  - rewrite !bool_decide_eq_true_2; [done| by right | done].
  - rewrite (bool_decide_eq_false_2 _ Hnin). destruct (decide (n = name)) as [->|Hne].
    + rewrite lookup_insert_eq. by rewrite bool_decide_eq_true_2 by left.
    + rewrite lookup_insert_ne by done. rewrite bool_decide_eq_false_2; [done|].
      intros Hin. apply elem_of_cons in Hin as [->|Hin]; done.
Qed.

(** How [pushRoute] runs, case by case. *)
Lemma pushRoute_run (st : AdsState) :
  match GetProxyServiceInstances (modelNode (con st)), modelNode (con st) with
  | inr err, _ => pushRoute st = (inr (Some err), st)
  | inl _, None => pushRoute st = (inr (Some "nil pointer dereference"), st)
  | inl insts, Some node =>
      let build := BuildSidecarOutboundHTTPRouteConfig node insts in
      let response := routeDiscoveryResponse (map build (Routes (con st))) in
      let c' := set_RouteConfigs
                  (foldl (λ m routeName, <[routeName := build routeName]> m)
                         (RouteConfigs (con st)) (Routes (con st))) (con st) in
      match streamSend response with
      | Some err => pushRoute st = (inr (Some err), mkAdsState c' (trace st))
      | None => pushRoute st = (inl tt, mkAdsState c' (trace st ++ [Sent response]))
      end
  end.
Proof.
  unfold pushRoute, mbind, Ads_bind, getCon, derefNode, modifyCon, returnErr, emit. simpl.
  destruct (GetProxyServiceInstances _) as [insts|err]; [|done].
  destruct (modelNode (con st)) as [node|]; [|done]. simpl.
  by destruct (streamSend _).
Qed.

End AdsMore.

(** X8. [pushRoute] sends exactly one response when it succeeds, of the
    route type and with one resource per watched route, and sends nothing
    when it fails; in both cases the watched route names stay as they are. *)
Theorem pushRoute_sends_once
    {RouteConfiguration Listener Cluster Any ServiceInstance : Type}
    `{Env : @AdsEnv RouteConfiguration Listener Cluster Any ServiceInstance}
    (st : AdsState) :
  Routes (con (snd (pushRoute st))) = Routes (con st)
  ∧ match fst (pushRoute st) with
    | inl _ =>
        ∃ response,
          sent (snd (pushRoute st)) = sent st ++ [response]
          ∧ Resp_TypeUrl response = RouteType
          ∧ length (Resp_Resources response) = length (Routes (con st))
    | inr _ => sent (snd (pushRoute st)) = sent st
    end.
Proof.
  split; [apply pushRoute_Routes|].
  pose proof (pushRoute_run st) as Hrun. destruct st as [c tr].
  destruct (GetProxyServiceInstances _) as [insts|err]; [|by rewrite Hrun].
  destruct (modelNode _) as [node|]; [|by rewrite Hrun].
  simpl in Hrun. destruct (streamSend _); rewrite Hrun; simpl; [done|].
  eexists. split; [unfold sent; simpl; by rewrite omap_app|]. split; [done|].
  simpl. by rewrite !length_map.
Qed.

(** X9. After a successful [pushRoute] the connection holds, for every
    watched route name, the route configuration built for that name; the
    configurations kept under other names are untouched. *)
Theorem pushRoute_records_configs
    {RouteConfiguration Listener Cluster Any ServiceInstance : Type}
    `{Env : @AdsEnv RouteConfiguration Listener Cluster Any ServiceInstance}
    (st : AdsState) (node : Proxy) (insts : list ServiceInstance) (name : string) :
  modelNode (con st) = Some node →
  GetProxyServiceInstances (Some node) = inl insts →
  fst (pushRoute st) = inl tt →
  RouteConfigs (con (snd (pushRoute st))) !! name
  = if bool_decide (name ∈ Routes (con st))
    then Some (BuildSidecarOutboundHTTPRouteConfig node insts name)
    else RouteConfigs (con st) !! name.
Proof.
  intros Hnode Hinsts. pose proof (pushRoute_run st) as Hrun.
  rewrite Hnode, Hinsts in Hrun. simpl in Hrun.
  destruct (streamSend _); rewrite Hrun; [done|]. intros _. simpl.
  apply foldl_insert_lookup.
Qed.

Lemma pushRoute_records_configs_witness :
  RouteConfigs (con (snd (pushRoute (Env := exampleAdsEnv) watchingState))) !! "9080"
  = Some "9080".
Proof.
  rewrite (pushRoute_records_configs (Env := exampleAdsEnv) watchingState exampleNode []
             "9080" eq_refl eq_refl eq_refl).
  vm_compute. reflexivity.
Defined.

Section AdsRequests.
Context {RouteConfiguration Listener Cluster Any ServiceInstance : Type}.
Context `{Env : @AdsEnv RouteConfiguration Listener Cluster Any ServiceInstance}.

(** A request with a node id that parses: the handler records the node and
    runs the switch, then registers the connection unless the switch ended
    in [continue]. *)
Lemma handleRequest_unfold (st : AdsState) (req : DiscoveryRequest) (nt : Proxy) :
  Node_Id req ≠ "" → ParseServiceNode (Node_Id req) = inl nt →
  ∃ c1,
    handleRequest req st
    = match handleTypeUrl req (mkAdsState c1 (trace st)) with
      | (inl true, st1) => (inl tt, st1)
      | (inl false, st1) => registerConnection st1
      | (inr e, st1) => (inr e, st1)
      end
    ∧ CDSWatch c1 = CDSWatch (con st) ∧ LDSWatch c1 = LDSWatch (con st)
    ∧ Routes c1 = Routes (con st) ∧ Clusters c1 = Clusters (con st)
    ∧ added c1 = added (con st) ∧ RouteConfigs c1 = RouteConfigs (con st)
    ∧ is_Some (modelNode c1)
    ∧ ConID c1 = (if String.eqb (ConID (con st)) "" then connectionID (Node_Id req)
                  else ConID (con st)).
Proof.
  intros Hid Hparse. unfold handleRequest.
  rewrite (proj2 (String.eqb_neq _ _) Hid), Hparse.
  unfold mbind at 1, Ads_bind at 1.
  unfold identifyNode, mbind at 1, Ads_bind at 1, modifyCon at 1. simpl.
  unfold mbind at 1, Ads_bind at 1, getCon at 1, when at 1. simpl.
  set (c0 := set_modelNode _ (con st)).
  destruct (String.eqb (ConID (con st)) ""); simpl.
  - exists (set_ConID (connectionID (Node_Id req)) c0). split.
    + unfold mbind, Ads_bind. destruct (handleTypeUrl req _) as [[[]|] ?]; reflexivity.
    + repeat split; by eexists.
  - exists c0. split.
    + unfold mbind, Ads_bind, mret, Ads_ret. simpl.
      destruct (handleTypeUrl req _) as [[[]|] ?]; reflexivity.
    + repeat split; by eexists.
Qed.

Lemma registerConnection_cases (st : @AdsState RouteConfiguration Listener Cluster Any) :
  registerConnection st
  = if added (con st) then (inl tt, st)
    else (inl tt, mkAdsState (set_added true (con st)) (trace st ++ [AddCon (ConID (con st))])).
Proof.
  unfold registerConnection, mbind, Ads_bind, modifyCon, getCon, when, emit. simpl.
  destruct (added (con st)); simpl; [by destruct st | done].
Qed.

End AdsRequests.

(** X10. A new route subscription is served once.  With the type URLs
    distinct, an RDS request that names routes, in a number other than the
    number of routes the connection watches, and that the handler completes
    without error, makes the connection watch exactly the named routes,
    sends exactly one response, of the route type and with one resource per
    named route, and leaves the connection registered. *)
Theorem route_subscription_served_once
    {RouteConfiguration Listener Cluster Any ServiceInstance : Type}
    `{Env : @AdsEnv RouteConfiguration Listener Cluster Any ServiceInstance}
    (st : AdsState) (req : DiscoveryRequest) :
  NoDup [ClusterType; ListenerType; RouteType; EndpointType] →
  TypeUrl req = RouteType →
  Node_Id req ≠ "" →
  ResourceNames req ≠ [] →
  length (ResourceNames req) ≠ length (Routes (con st)) →
  fst (handleRequest req st) = inl tt →
  Routes (con (snd (handleRequest req st))) = ResourceNames req
  ∧ added (con (snd (handleRequest req st))) = true
  ∧ ∃ response,
      sent (snd (handleRequest req st)) = sent st ++ [response]
      ∧ Resp_TypeUrl response = RouteType
      ∧ length (Resp_Resources response) = length (ResourceNames req).
Proof.
  intros Hdistinct Hty Hid Hnames Hlen.
  destruct (typeUrls_ne Hdistinct) as (Hlc & Hrc & Hrl & _).
  destruct (ParseServiceNode (Node_Id req)) as [nt|err] eqn:Hparse.
  2: { unfold handleRequest. rewrite (proj2 (String.eqb_neq _ _) Hid), Hparse. done. }
  destruct (handleRequest_unfold st req nt Hid Hparse)
    as (c1 & -> & _ & _ & Hroutes & _ & _ & _ & _ & _).
  unfold handleTypeUrl, mbind, Ads_bind, getCon. simpl. rewrite Hty.
  rewrite (proj2 (String.eqb_neq _ _) Hrc), (proj2 (String.eqb_neq _ _) Hrl),
    String.eqb_refl, Hroutes.
  rewrite (proj2 (Nat.eqb_neq _ _) Hlen).
  destruct (ResourceNames req) as [|n names] eqn:Hn; [done|]. simpl. unfold modifyCon. simpl.
  pose proof (pushRoute_run (mkAdsState (set_Routes (n :: names) c1) (trace st))) as Hrun.
  simpl in Hrun. destruct (GetProxyServiceInstances _) as [insts|err]; [|by rewrite Hrun].
  destruct (modelNode c1) as [node|]; [|by rewrite Hrun].
  destruct (streamSend _); rewrite Hrun; [intros [=]|]. unfold mret, Ads_ret.
  rewrite registerConnection_cases. simpl. intros _.
  destruct (added c1) eqn:Hadd; simpl.
  - split; [done|]. split; [done|]. eexists.
    split; [unfold sent; simpl; by rewrite omap_app|]. split; [done|].
    simpl. by rewrite !length_map.
  - split; [done|]. split; [done|]. eexists.
    split; [unfold sent; simpl; by rewrite !omap_app, app_nil_r|]. split; [done|].
    simpl. by rewrite !length_map.
Qed.

Lemma route_subscription_served_once_witness :
  Routes (con (snd (handleRequest (Env := exampleAdsEnv)
                      (requestFor "Route" ["80"; "9080"; "15001"]) watchingState)))
  = ["80"; "9080"; "15001"].
Proof.
  apply (route_subscription_served_once (Env := exampleAdsEnv) watchingState
           (requestFor "Route" ["80"; "9080"; "15001"])).
  - apply (bool_decide_unpack _). vm_compute. exact I.
  - reflexivity.
  - discriminate.
  - discriminate.
  - simpl. lia.
  - vm_compute. reflexivity.
Defined.

(** X11. An RDS (or EDS) request that names no resource while the
    connection watches routes (or clusters) does not unsubscribe: with the
    type URLs distinct, the handler sends nothing and the watched names stay
    as they are. *)
Theorem empty_request_keeps_watch
    {RouteConfiguration Listener Cluster Any ServiceInstance : Type}
    `{Env : @AdsEnv RouteConfiguration Listener Cluster Any ServiceInstance}
    (st : AdsState) (req : DiscoveryRequest) :
  NoDup [ClusterType; ListenerType; RouteType; EndpointType] →
  ResourceNames req = [] →
  (TypeUrl req = RouteType ∧ Routes (con st) ≠ [])
  ∨ (TypeUrl req = EndpointType ∧ Clusters (con st) ≠ []) →
  sent (snd (handleRequest req st)) = sent st
  ∧ Routes (con (snd (handleRequest req st))) = Routes (con st)
  ∧ Clusters (con (snd (handleRequest req st))) = Clusters (con st).
Proof.
  intros Hdistinct Hnames Hcase.
  destruct (typeUrls_ne Hdistinct) as (Hlc & Hrc & Hrl & Hec & Hel & Her).
  destruct (String.eqb_spec (Node_Id req) "") as [Hid|Hid].
  { unfold handleRequest. apply String.eqb_eq in Hid. by rewrite Hid. }
  destruct (ParseServiceNode (Node_Id req)) as [nt|err] eqn:Hparse.
  2: { unfold handleRequest. rewrite (proj2 (String.eqb_neq _ _) Hid), Hparse. done. }
  destruct (handleRequest_unfold st req nt Hid Hparse)
    as (c1 & -> & _ & _ & Hroutes & Hclusters & _).
  unfold handleTypeUrl, mbind, Ads_bind, getCon, when, emit. simpl. rewrite Hnames. simpl.
  rewrite Hroutes, Hclusters, orb_true_r.
  destruct Hcase as [[Hty Hne]|[Hty Hne]]; rewrite Hty.
  - rewrite (proj2 (String.eqb_neq _ _) Hrc), (proj2 (String.eqb_neq _ _) Hrl),
      String.eqb_refl.
    destruct (Routes (con st)) as [|r rs] eqn:Hr; [done|]. simpl. unfold mret, Ads_ret.
    simpl. by destruct st.
  - rewrite (proj2 (String.eqb_neq _ _) Hec), (proj2 (String.eqb_neq _ _) Hel),
      (proj2 (String.eqb_neq _ _) Her), String.eqb_refl.
    destruct (Clusters (con st)) as [|x xs] eqn:Hc; [done|]. simpl. unfold mret, Ads_ret.
    destruct (ErrorDetail req); simpl.
    + split; [|done]. unfold sent. simpl. by rewrite omap_app, app_nil_r.
    + by destruct st.
Qed.

Lemma empty_request_keeps_watch_witness :
  sent (snd (handleRequest (Env := exampleAdsEnv) (requestFor "Route" []) watchingState))
  = sent watchingState
  ∧ Routes (con (snd (handleRequest (Env := exampleAdsEnv) (requestFor "Route" [])
                        watchingState)))
    = ["80"; "9080"].
Proof.
  destruct (empty_request_keeps_watch (Env := exampleAdsEnv) watchingState
              (requestFor "Route" [])) as (Hs & Hr & _).
  - apply (bool_decide_unpack _). vm_compute. exact I.
  - reflexivity.
  - left. split; [reflexivity | discriminate].
  - split; [exact Hs | exact Hr].
Defined.

(** X12. A request with a type URL other than the four resource types gets
    no response; the handler only registers the connection, once: it emits
    the registration when the connection was not registered yet and nothing
    otherwise. *)
Theorem unknown_type_registers_only
    {RouteConfiguration Listener Cluster Any ServiceInstance : Type}
    `{Env : @AdsEnv RouteConfiguration Listener Cluster Any ServiceInstance}
    (st : AdsState) (req : DiscoveryRequest) (nt : Proxy) :
  TypeUrl req ∉ [ClusterType; ListenerType; RouteType; EndpointType] →
  Node_Id req ≠ "" →
  ParseServiceNode (Node_Id req) = inl nt →
  fst (handleRequest req st) = inl tt
  ∧ sent (snd (handleRequest req st)) = sent st
  ∧ added (con (snd (handleRequest req st))) = true
  ∧ trace (snd (handleRequest req st))
    = trace st ++ (if added (con st) then []
                   else [AddCon (if String.eqb (ConID (con st)) ""
                                 then connectionID (Node_Id req) else ConID (con st))]).
Proof.
  intros Hty Hid Hparse. rewrite !not_elem_of_cons in Hty.
  destruct Hty as (Hc & Hl & Hr & He & _).
  destruct (handleRequest_unfold st req nt Hid Hparse)
    as (c1 & -> & _ & _ & _ & _ & Hadd & _ & _ & Hcon).
  unfold handleTypeUrl, mbind, Ads_bind, getCon. simpl.
  rewrite (proj2 (String.eqb_neq _ _) Hc), (proj2 (String.eqb_neq _ _) Hl),
    (proj2 (String.eqb_neq _ _) Hr), (proj2 (String.eqb_neq _ _) He).
  unfold mret, Ads_ret. rewrite registerConnection_cases. simpl.
  rewrite Hadd, Hcon. destruct (added (con st)) eqn:Ha; simpl.
  - rewrite app_nil_r. repeat split; try done.
  - repeat split; try done. unfold sent. simpl. by rewrite omap_app, app_nil_r.
Qed.

Lemma unknown_type_registers_only_witness :
  trace (snd (handleRequest (Env := exampleAdsEnv) (requestFor "Secret" []) freshState))
  = [AddCon "sidecar-reviews-v1-1"].
Proof.
  destruct (unknown_type_registers_only (Env := exampleAdsEnv) freshState
              (requestFor "Secret" [])
              (mkProxy "sidecar" "10.0.0.1" "sidecar-reviews-v1" "cluster.local" ∅))
    as (_ & _ & _ & Htrace).
  - apply (bool_decide_unpack _). vm_compute. exact I.
  - discriminate.
  - reflexivity.
  - rewrite Htrace. reflexivity.
Defined.

(** X13. A push signal re-sends only what the connection watches: for a
    connection without CDS and LDS watch and without watched clusters, the
    push is the route push when routes are watched and does nothing at all
    when none is. *)
Theorem handlePush_only_watched
    {RouteConfiguration Listener Cluster Any ServiceInstance : Type}
    `{Env : @AdsEnv RouteConfiguration Listener Cluster Any ServiceInstance}
    (st : AdsState) :
  CDSWatch (con st) = false → LDSWatch (con st) = false → Clusters (con st) = [] →
  handlePush st = if (0 <? length (Routes (con st)))%nat then pushRoute st
                  else (inl tt, st).
Proof.
  intros Hcds Hlds Hclusters.
  unfold handlePush, mbind at 1, Ads_bind at 1, getCon at 1. simpl. rewrite Hcds.
  unfold mbind at 1, Ads_bind at 1, when at 1, mret, Ads_ret. simpl.
  unfold mbind at 1, Ads_bind at 1, getCon at 1. simpl.
  unfold mbind at 1, Ads_bind at 1, when at 1.
  destruct (0 <? length (Routes (con st)))%nat.
  - pose proof (pushRoute_run st) as Hrun.
    destruct (GetProxyServiceInstances _) as [insts|err]; [|by rewrite Hrun].
    destruct (modelNode (con st)) as [node|]; [|by rewrite Hrun].
    simpl in Hrun. destruct (streamSend _); rewrite Hrun; [done|].
    unfold mbind, Ads_bind, getCon, when, mret, Ads_ret. simpl.
    rewrite Hclusters. simpl. by rewrite Hlds.
  - unfold mbind, Ads_bind, getCon, when, mret, Ads_ret. simpl.
    rewrite Hclusters. simpl. rewrite Hlds. by destruct st.
Qed.

Lemma handlePush_only_watched_witness :
  handlePush (Env := exampleAdsEnv) freshState = (inl tt, freshState)
  ∧ handlePush (Env := exampleAdsEnv) watchingState
    = pushRoute (Env := exampleAdsEnv) watchingState.
Proof.
  split.
  - exact (handlePush_only_watched (Env := exampleAdsEnv) freshState
             eq_refl eq_refl eq_refl).
  - exact (handlePush_only_watched (Env := exampleAdsEnv) watchingState
             eq_refl eq_refl eq_refl).
Defined.

Lemma forM__app {RouteConfiguration Listener Cluster Any A : Type}
    (f : A → @Ads RouteConfiguration Listener Cluster Any unit) (pre post : list A)
    (st : AdsState) :
  forM_ (pre ++ post) f st
  = match forM_ pre f st with
    | (inl _, st') => forM_ post f st'
    | (inr e, st') => (inr e, st')
    end.
Proof.
  revert st. induction pre as [|x pre IH]; intros st; simpl; [done|].
  unfold mbind, Ads_bind. destruct (f x st) as [[[]|e] st']; [apply IH | done].
Qed.

(** X14. The handler's loop ends with the first failure: the events after
    it are not handled.  In particular, when the request channel closes the
    loop returns the receive error, and nothing that arrives later is
    handled or answered. *)
Theorem StreamAggregatedResources_ends
    {RouteConfiguration Listener Cluster Any ServiceInstance : Type}
    `{Env : @AdsEnv RouteConfiguration Listener Cluster Any ServiceInstance}
    (pre post : list StreamEvent) (receiveError : option string) (st : AdsState) :
  StreamAggregatedResources (pre ++ post) st
  = match StreamAggregatedResources pre st with
    | (inl _, st') => StreamAggregatedResources post st'
    | (inr e, st') => (inr e, st')
    end
  ∧ StreamAggregatedResources (pre ++ RequestsClosed receiveError :: post) st
    = match StreamAggregatedResources pre st with
      | (inl _, st') => (inr receiveError, st')
      | (inr e, st') => (inr e, st')
      end.
Proof.
  unfold StreamAggregatedResources. rewrite !forM__app. split; [done|].
  by destruct (forM_ pre handleEvent st) as [[[]|e] st'].
Qed.
